(** * Stackit: vote ledger, answer acceptance, notifications and access checks

    A shallow embedding of the Q&A forum backend: the Mongoose models
    (Question, Answer, Comment, User, Notification) as records with their
    schema methods, the MongoDB collections as finite maps keyed by [_id],
    and the Express route handlers as functions from a store to a new store
    and a response.

    Conventions of the embedding:
    - an [ObjectId] is a natural number; comparing two ids through
      [toString()] is equality of the numbers;
    - a document does not repeat its own [_id]: it is the key under which
      the collection holds it;
    - a [Date] is a number of milliseconds; [new Date()] and [Date.now] read
      the clock value [now] handed to the operation;
    - [doc.save()] stores the in-memory document under its key, and
      succeeds: the setters and validators of the schemas ([trim],
      [lowercase], [minlength], ...), which repeat what the routes check,
      are not modelled, nor is the [catch] branch that answers 500;
    - a route parameter [:id] is a well-formed id;
    - the bookkeeping of Mongoose itself ([__v], [createdAt] and [updatedAt]
      of [timestamps: true]) and [populate] are left out. *)

From Stdlib Require Import QArith Qround.
From stdpp Require Import gmap strings list fin_maps.

Open Scope Z_scope.

Abbreviation ObjectId := nat (only parsing).
Abbreviation Date := Z (only parsing).

(** ** The embedded vote ledger

    The three content schemas carry the same [votes] sub-document and the
    same four methods over it; they are written once here and each model
    below applies them to its own [votes] field. *)

Module Votes.

Record Vote := { user : ObjectId; createdAt : Date }.

Record t := { upvotes : list Vote; downvotes : list Vote }.

(** Schema default: both arrays empty. *)
Definition empty : t := {| upvotes := []; downvotes := [] |}.

(** [vote => vote.user.toString() === userId.toString()] *)
Definition isBy (userId : ObjectId) (vote : Vote) : bool :=
  bool_decide (user vote = userId).

(** [vote => vote.user.toString() !== userId.toString()] *)
Definition notBy (userId : ObjectId) (vote : Vote) : bool :=
  negb (isBy userId vote).

(** [this.votes.upvotes.length - this.votes.downvotes.length] *)
Definition voteCount (v : t) : Z :=
  Z.of_nat (length (upvotes v)) - Z.of_nat (length (downvotes v)).

Definition hasUserVoted (v : t) (userId : ObjectId) : option string :=
  let upvoted := existsb (isBy userId) (upvotes v) in
  let downvoted := existsb (isBy userId) (downvotes v) in
  if upvoted then Some "upvote"
  else if downvoted then Some "downvote"
  else None.

Definition removeVote (v : t) (userId : ObjectId) : t :=
  {| upvotes := List.filter (notBy userId) (upvotes v);
     downvotes := List.filter (notBy userId) (downvotes v) |}.

(** The pushed sub-document [{ user: userId }] takes [createdAt] from its
    schema default [Date.now]. *)
Definition addVote (v : t) (userId : ObjectId) (voteType : string)
    (now : Date) : t :=
  let ups := List.filter (notBy userId) (upvotes v) in
  let downs := List.filter (notBy userId) (downvotes v) in
  if bool_decide (voteType = "upvote") then
    {| upvotes := ups ++ [{| user := userId; createdAt := now |}];
       downvotes := downs |}
  else if bool_decide (voteType = "downvote") then
    {| upvotes := ups;
       downvotes := downs ++ [{| user := userId; createdAt := now |}] |}
  else
    {| upvotes := ups; downvotes := downs |}.

(** The voter ids of one of the two arrays. *)
Definition voters (l : list Vote) : list ObjectId := map user l.

(** Number of entries of [userId] in one of the two arrays. *)
Definition entries (userId : ObjectId) (l : list Vote) : nat :=
  length (List.filter (isBy userId) l).

(** No voter sits in both arrays. *)
Definition exclusive (v : t) : Prop :=
  ∀ u, ¬ (u ∈ voters (upvotes v) ∧ u ∈ voters (downvotes v)).

(** The invariant of the ledger: count and mutual exclusion. *)
Definition ledger_ok (count : Z) (v : t) : Prop :=
  count = Z.of_nat (length (upvotes v)) - Z.of_nat (length (downvotes v))
  ∧ exclusive v.

End Votes.

(** One entry of an [editHistory] array (the same in the three content
    schemas). *)
Record EditEntry := {
  editedBy : ObjectId;
  editedAt : Date;
  previousContent : string;
  editReason : string
}.

(** ** models/Answer.js *)

Module Answer.

Record t := {
  content : string;
  question : ObjectId;
  author : ObjectId;
  votes : Votes.t;
  isAccepted : bool;
  acceptedAt : option Date;
  acceptedBy : option ObjectId;
  isEdited : bool;
  editHistory : list EditEntry;
  isDeleted : bool;
  deletedBy : option ObjectId;
  deletedAt : option Date;
  deleteReason : option string
}.

(** [new Answer({ content, question, author })] with the schema defaults. *)
Definition create (content : string) (question author : ObjectId) : t :=
  {| content := content; question := question; author := author;
     votes := Votes.empty;
     isAccepted := false; acceptedAt := None; acceptedBy := None;
     isEdited := false; editHistory := [];
     isDeleted := false; deletedBy := None; deletedAt := None;
     deleteReason := None |}.

Definition set_votes (a : t) (v : Votes.t) : t :=
  {| content := content a; question := question a; author := author a;
     votes := v;
     isAccepted := isAccepted a; acceptedAt := acceptedAt a;
     acceptedBy := acceptedBy a;
     isEdited := isEdited a; editHistory := editHistory a;
     isDeleted := isDeleted a; deletedBy := deletedBy a;
     deletedAt := deletedAt a; deleteReason := deleteReason a |}.

Definition set_accepted (a : t) (flag : bool) (at_ : option Date)
    (by_ : option ObjectId) : t :=
  {| content := content a; question := question a; author := author a;
     votes := votes a;
     isAccepted := flag; acceptedAt := at_; acceptedBy := by_;
     isEdited := isEdited a; editHistory := editHistory a;
     isDeleted := isDeleted a; deletedBy := deletedBy a;
     deletedAt := deletedAt a; deleteReason := deleteReason a |}.

(** The virtual [voteCount]. *)
Definition voteCount (a : t) : Z := Votes.voteCount (votes a).

Definition hasUserVoted (a : t) (userId : ObjectId) : option string :=
  Votes.hasUserVoted (votes a) userId.

Definition addVote (a : t) (userId : ObjectId) (voteType : string)
    (now : Date) : t :=
  set_votes a (Votes.addVote (votes a) userId voteType now).

Definition removeVote (a : t) (userId : ObjectId) : t :=
  set_votes a (Votes.removeVote (votes a) userId).

Definition acceptAnswer (a : t) (userId : ObjectId) (now : Date) : t :=
  set_accepted a true (Some now) (Some userId).

Definition unacceptAnswer (a : t) : t :=
  set_accepted a false None None.

End Answer.

(** ** models/Comment.js *)

Module Comment.

Record t := {
  content : string;
  author : ObjectId;
  question : option ObjectId;
  answer : option ObjectId;
  parentComment : option ObjectId;
  votes : Votes.t;
  isEdited : bool;
  editHistory : list EditEntry;
  isDeleted : bool;
  deletedBy : option ObjectId;
  deletedAt : option Date;
  deleteReason : option string
}.

(** A new comment: the given fields and the schema defaults. *)
Definition create (content : string) (author : ObjectId)
    (question answer parentComment : option ObjectId) : t :=
  {| content := content; author := author; question := question;
     answer := answer; parentComment := parentComment;
     votes := Votes.empty;
     isEdited := false; editHistory := [];
     isDeleted := false; deletedBy := None; deletedAt := None;
     deleteReason := None |}.

Definition set_votes (c : t) (v : Votes.t) : t :=
  {| content := content c; author := author c; question := question c;
     answer := answer c; parentComment := parentComment c;
     votes := v;
     isEdited := isEdited c; editHistory := editHistory c;
     isDeleted := isDeleted c; deletedBy := deletedBy c;
     deletedAt := deletedAt c; deleteReason := deleteReason c |}.

Definition voteCount (c : t) : Z := Votes.voteCount (votes c).

Definition hasUserVoted (c : t) (userId : ObjectId) : option string :=
  Votes.hasUserVoted (votes c) userId.

Definition addVote (c : t) (userId : ObjectId) (voteType : string)
    (now : Date) : t :=
  set_votes c (Votes.addVote (votes c) userId voteType now).

Definition removeVote (c : t) (userId : ObjectId) : t :=
  set_votes c (Votes.removeVote (votes c) userId).

End Comment.

(** ** models/Question.js *)

Module Question.

Inductive Status := open | closed | duplicate | off_topic.

Record Bounty := {
  amount : Z;
  expiresAt : option Date;
  offeredBy : option ObjectId
}.

Record t := {
  title : string;
  description : string;
  author : ObjectId;
  tags : list string;
  votes : Votes.t;
  views : Z;
  isAnswered : bool;
  acceptedAnswer : option ObjectId;
  status : Status;
  bounty : Bounty;
  isEdited : bool;
  editHistory : list EditEntry;
  isDeleted : bool;
  deletedBy : option ObjectId;
  deletedAt : option Date;
  deleteReason : option string
}.

(** [new Question({ title, description, tags, author })] with the schema
    defaults. *)
Definition create (title description : string) (tags : list string)
    (author : ObjectId) : t :=
  {| title := title; description := description; author := author;
     tags := tags; votes := Votes.empty; views := 0;
     isAnswered := false; acceptedAnswer := None; status := open;
     bounty := {| amount := 0; expiresAt := None; offeredBy := None |};
     isEdited := false; editHistory := [];
     isDeleted := false; deletedBy := None; deletedAt := None;
     deleteReason := None |}.

Definition set_votes (q : t) (v : Votes.t) : t :=
  {| title := title q; description := description q; author := author q;
     tags := tags q; votes := v; views := views q;
     isAnswered := isAnswered q; acceptedAnswer := acceptedAnswer q;
     status := status q; bounty := bounty q;
     isEdited := isEdited q; editHistory := editHistory q;
     isDeleted := isDeleted q; deletedBy := deletedBy q;
     deletedAt := deletedAt q; deleteReason := deleteReason q |}.

Definition set_views (q : t) (n : Z) : t :=
  {| title := title q; description := description q; author := author q;
     tags := tags q; votes := votes q; views := n;
     isAnswered := isAnswered q; acceptedAnswer := acceptedAnswer q;
     status := status q; bounty := bounty q;
     isEdited := isEdited q; editHistory := editHistory q;
     isDeleted := isDeleted q; deletedBy := deletedBy q;
     deletedAt := deletedAt q; deleteReason := deleteReason q |}.

(** [question.isAnswered = ...; question.acceptedAnswer = ...] *)
Definition set_accepted (q : t) (flag : bool) (a : option ObjectId) : t :=
  {| title := title q; description := description q; author := author q;
     tags := tags q; votes := votes q; views := views q;
     isAnswered := flag; acceptedAnswer := a;
     status := status q; bounty := bounty q;
     isEdited := isEdited q; editHistory := editHistory q;
     isDeleted := isDeleted q; deletedBy := deletedBy q;
     deletedAt := deletedAt q; deleteReason := deleteReason q |}.

Definition voteCount (q : t) : Z := Votes.voteCount (votes q).

Definition hasUserVoted (q : t) (userId : ObjectId) : option string :=
  Votes.hasUserVoted (votes q) userId.

Definition addVote (q : t) (userId : ObjectId) (voteType : string)
    (now : Date) : t :=
  set_votes q (Votes.addVote (votes q) userId voteType now).

Definition removeVote (q : t) (userId : ObjectId) : t :=
  set_votes q (Votes.removeVote (votes q) userId).

Definition incrementViews (q : t) : t := set_views q (views q + 1).

End Question.

(** ** models/User.js *)

Module User.

Inductive Role := guest | user | admin.

#[global] Instance Role_eq_dec : EqDecision Role.
Proof. solve_decision. Defined.

Record Badge := { name : string; badge_description : string; earnedAt : Date }.

Record t := {
  username : string;
  email : string;
  password : string;
  role : Role;
  avatar : string;
  bio : string;
  reputation : Z;
  badges : list Badge;
  isBanned : bool;
  banReason : string;
  lastSeen : Date;
  emailVerified : bool;
  emailVerificationToken : option string;
  passwordResetToken : option string;
  passwordResetExpires : option Date
}.

(** [user.isBanned = ...; user.banReason = ...] *)
Definition set_ban (u : t) (flag : bool) (reason : string) : t :=
  {| username := username u; email := email u; password := password u;
     role := role u; avatar := avatar u; bio := bio u;
     reputation := reputation u; badges := badges u;
     isBanned := flag; banReason := reason;
     lastSeen := lastSeen u; emailVerified := emailVerified u;
     emailVerificationToken := emailVerificationToken u;
     passwordResetToken := passwordResetToken u;
     passwordResetExpires := passwordResetExpires u |}.

Definition set_role (u : t) (r : Role) : t :=
  {| username := username u; email := email u; password := password u;
     role := r; avatar := avatar u; bio := bio u;
     reputation := reputation u; badges := badges u;
     isBanned := isBanned u; banReason := banReason u;
     lastSeen := lastSeen u; emailVerified := emailVerified u;
     emailVerificationToken := emailVerificationToken u;
     passwordResetToken := passwordResetToken u;
     passwordResetExpires := passwordResetExpires u |}.

End User.

(** ** models/Notification.js

    The [metadata] bag, which no route fills, is left out. *)

Module Notification.

Inductive Type_ :=
| answer_received | comment_received | mention | vote_received
| answer_accepted | bounty_offered | bounty_awarded | question_edited
| answer_edited | admin_message | user_banned | content_deleted.

#[global] Instance Type_eq_dec : EqDecision Type_.
Proof. solve_decision. Defined.

Record t := {
  recipient : ObjectId;
  sender : option ObjectId;
  type : Type_;
  title : string;
  message : string;
  relatedQuestion : option ObjectId;
  relatedAnswer : option ObjectId;
  relatedComment : option ObjectId;
  isRead : bool;
  readAt : option Date
}.

(** The data object handed to [createNotification] by the answer routes,
    completed with the schema defaults. *)
Definition create (recipient sender : ObjectId) (type : Type_)
    (title message : string) (relatedQuestion relatedAnswer : ObjectId) : t :=
  {| recipient := recipient; sender := Some sender; type := type;
     title := title; message := message;
     relatedQuestion := Some relatedQuestion;
     relatedAnswer := Some relatedAnswer; relatedComment := None;
     isRead := false; readAt := None |}.

End Notification.

(** ** The collections, the request context and the responses *)

(** The database: one finite map per collection, keyed by [_id].  The
    notifications are kept in insertion order; no modelled route looks one
    up by id. *)
Record Store := {
  users : gmap ObjectId User.t;
  questions : gmap ObjectId Question.t;
  answers : gmap ObjectId Answer.t;
  notifications : list Notification.t
}.

Definition set_users (st : Store) (m : gmap ObjectId User.t) : Store :=
  {| users := m; questions := questions st; answers := answers st;
     notifications := notifications st |}.

Definition set_questions (st : Store) (m : gmap ObjectId Question.t) : Store :=
  {| users := users st; questions := m; answers := answers st;
     notifications := notifications st |}.

Definition set_answers (st : Store) (m : gmap ObjectId Answer.t) : Store :=
  {| users := users st; questions := questions st; answers := m;
     notifications := notifications st |}.

Definition set_notifications (st : Store) (l : list Notification.t) : Store :=
  {| users := users st; questions := questions st; answers := answers st;
     notifications := l |}.

(** The [_id] the driver gives a new document: one no document of the
    collection has. *)
Definition freshId {V} (m : gmap ObjectId V) : ObjectId :=
  S (max_list (elements (dom m))).

(** [Model.findOne(filter)]: some document matching the filter, if any. *)
Definition findOne {V} (matches : V → bool) (m : gmap ObjectId V)
    : option (ObjectId * V) :=
  List.find (λ kv, matches kv.2) (map_to_list m).

(** [Model.countDocuments(filter)] *)
Definition countDocuments {V} (matches : V → bool) (m : gmap ObjectId V) : Z :=
  Z.of_nat (length (List.filter (λ kv, matches kv.2) (map_to_list m))).

(** [req.user], as the authentication middleware leaves it. *)
Record ReqUser := {
  _id : ObjectId;
  role : User.Role;
  username : string
}.

(** [req.app]: the socket server and the directory of live connections. *)
Record App := {
  io : bool;
  connectedUsers : gmap ObjectId string
}.

(** One [io.to(socketId).emit(event, { type, title, message })]. *)
Record Emit := {
  to : string;
  event : string;
  emit_type : Notification.Type_;
  emit_title : string;
  emit_message : string
}.

Record AnswerJson := {
  answer_id : ObjectId;
  answer : Answer.t;
  answer_voteCount : Z;
  answer_userVote : option string
}.

Record QuestionJson := {
  question_id : ObjectId;
  question : Question.t;
  question_voteCount : Z;
  question_userVote : option string
}.

Record Pagination := {
  currentPage : Z;
  totalPages : Z;
  totalQuestions : Z;
  hasNextPage : bool;
  hasPrevPage : bool
}.

(** The JSON bodies the modelled routes send. *)
Inductive Body :=
| errors (l : list string)
| message (m : string)
| message_answer (m : string) (a : AnswerJson)
| message_question (m : string) (q : QuestionJson)
| questions_page (p : Pagination).

Record Response := { status : nat; body : Body }.

(** What one request does: the store it leaves, the response, and the
    real-time events it pushed. *)
Record Outcome := {
  store : Store;
  response : Response;
  emitted : list Emit
}.

(** [return res.status(code).json(b)] with nothing written. *)
Definition reply (st : Store) (code : nat) (b : Body) : Outcome :=
  {| store := st; response := {| status := code; body := b |}; emitted := [] |}.

(** [validationResult(req)]: the messages of the checks that fail. *)
Definition validationResult (checks : list (bool * string)) : list string :=
  map snd (List.filter (λ c, negb c.1) checks).

(** [isLength({ min, max })] *)
Definition isLength (lo : nat) (hi : option nat) (s : string) : bool :=
  Nat.leb lo (String.length s)
  && match hi with Some h => Nat.leb (String.length s) h | None => true end.

Definition dquote : string := String (Ascii.ascii_of_nat 34) EmptyString.

(** A socket id is used when it is truthy: a non-empty string. *)
Definition liveSocket (app : App) (userId : ObjectId) : option string :=
  match connectedUsers app !! userId with
  | Some sid => if io app && negb (bool_decide (sid = "")) then Some sid else None
  | None => None
  end.

(** The block that follows a write in the answer routes: persist the
    notification, then push it to the recipient's socket if there is one. *)
Definition notify (app : App) (st : Store) (n : Notification.t)
    : Store * list Emit :=
  (set_notifications st (notifications st ++ [n]),
   match liveSocket app (Notification.recipient n) with
   | Some sid =>
       [{| to := sid; event := "newNotification";
           emit_type := Notification.type n;
           emit_title := Notification.title n;
           emit_message := Notification.message n |}]
   | None => []
   end).

(** [x || 'No reason provided'] *)
Definition orNoReason (x : option string) : string :=
  match x with
  | Some s => if bool_decide (s = "") then "No reason provided" else s
  | None => "No reason provided"
  end.

(** The answer object of a response: the document with [voteCount] and
    [userVote] computed from its arrays. *)
Definition answerJson (id : ObjectId) (a : Answer.t) (user : ReqUser) : AnswerJson :=
  {| answer_id := id; answer := a;
     answer_voteCount :=
       Z.of_nat (length (Votes.upvotes (Answer.votes a)))
       - Z.of_nat (length (Votes.downvotes (Answer.votes a)));
     answer_userVote := Answer.hasUserVoted a (_id user) |}.

(** ** routes/answers.js *)

(** The validation chain of [POST /api/answers].  [questionId] is [None]
    when the body field is not a Mongo id. *)
Definition answers_post_checks (content : string) (questionId : option ObjectId)
    : list (bool * string) :=
  [ (isLength 20 None content, "Answer must be at least 20 characters long");
    (bool_decide (is_Some questionId), "Valid question ID is required") ].

(** [POST /api/answers] *)
Definition answers_post (app : App) (user : ReqUser)
    (content : string) (questionId : option ObjectId) (st : Store) : Outcome :=
  let errs := validationResult (answers_post_checks content questionId) in
  match errs, questionId with
  | [], Some qid =>
    match questions st !! qid with
    | None => reply st 404 (message "Question not found")
    | Some question =>
      if Question.isDeleted question then reply st 404 (message "Question not found")
      else
        let existingAnswer :=
          findOne (λ a, bool_decide (Answer.question a = qid)
                        && bool_decide (Answer.author a = _id user)
                        && negb (Answer.isDeleted a)) (answers st) in
        match existingAnswer with
        | Some _ => reply st 400 (message "You have already answered this question")
        | None =>
          let answer := Answer.create content qid (_id user) in
          let aid := freshId (answers st) in
          let st1 := set_answers st (<[aid := answer]> (answers st)) in
          let out :=
            if bool_decide (Question.author question ≠ _id user) then
              notify app st1
                (Notification.create (Question.author question) (_id user)
                   Notification.answer_received "New answer received"
                   (username user +:+ " answered your question " +:+ dquote
                      +:+ Question.title question +:+ dquote)
                   qid aid)
            else (st1, []) in
          {| store := out.1;
             response :=
               {| status := 201;
                  body := message_answer "Answer posted successfully"
                            {| answer_id := aid; answer := answer;
                               answer_voteCount := 0;
                               answer_userVote := None |} |};
             emitted := out.2 |}
        end
    end
  | _, _ => reply st 400 (errors errs)
  end.

(** [PUT /api/answers/:id] *)
Definition answers_put (now : Date) (user : ReqUser) (id : ObjectId)
    (content : string) (editReason : option string) (st : Store) : Outcome :=
  let errs := validationResult
    [ (isLength 20 None content, "Answer must be at least 20 characters long") ] in
  match errs with
  | _ :: _ => reply st 400 (errors errs)
  | [] =>
    match answers st !! id with
    | None => reply st 404 (message "Answer not found")
    | Some a =>
      if Answer.isDeleted a then reply st 404 (message "Answer not found")
      else if bool_decide (Answer.author a ≠ _id user)
              && bool_decide (role user ≠ User.admin) then
        reply st 403 (message "Not authorized to edit this answer")
      else if bool_decide (content = Answer.content a) then
        reply st 400 (message "No changes to update")
      else
        let a' :=
          {| Answer.content := content;
             Answer.question := Answer.question a;
             Answer.author := Answer.author a;
             Answer.votes := Answer.votes a;
             Answer.isAccepted := Answer.isAccepted a;
             Answer.acceptedAt := Answer.acceptedAt a;
             Answer.acceptedBy := Answer.acceptedBy a;
             Answer.isEdited := true;
             Answer.editHistory :=
               Answer.editHistory a ++
               [{| editedBy := _id user; editedAt := now;
                   previousContent := Answer.content a;
                   editReason := orNoReason editReason |}];
             Answer.isDeleted := Answer.isDeleted a;
             Answer.deletedBy := Answer.deletedBy a;
             Answer.deletedAt := Answer.deletedAt a;
             Answer.deleteReason := Answer.deleteReason a |} in
        {| store := set_answers st (<[id := a']> (answers st));
           response :=
             {| status := 200;
                body := message_answer "Answer updated successfully"
                          (answerJson id a' user) |};
           emitted := [] |}
    end
  end.

(** [DELETE /api/answers/:id]: a soft delete. *)
Definition answers_delete (now : Date) (user : ReqUser) (id : ObjectId)
    (reason : option string) (st : Store) : Outcome :=
  match answers st !! id with
  | None => reply st 404 (message "Answer not found")
  | Some a =>
    if Answer.isDeleted a then reply st 404 (message "Answer not found")
    else if bool_decide (Answer.author a ≠ _id user)
            && bool_decide (role user ≠ User.admin) then
      reply st 403 (message "Not authorized to delete this answer")
    else
      let a' :=
        {| Answer.content := Answer.content a;
           Answer.question := Answer.question a;
           Answer.author := Answer.author a;
           Answer.votes := Answer.votes a;
           Answer.isAccepted := Answer.isAccepted a;
           Answer.acceptedAt := Answer.acceptedAt a;
           Answer.acceptedBy := Answer.acceptedBy a;
           Answer.isEdited := Answer.isEdited a;
           Answer.editHistory := Answer.editHistory a;
           Answer.isDeleted := true;
           Answer.deletedBy := Some (_id user);
           Answer.deletedAt := Some now;
           Answer.deleteReason := Some (orNoReason reason) |} in
      {| store := set_answers st (<[id := a']> (answers st));
         response := {| status := 200; body := message "Answer deleted successfully" |};
         emitted := [] |}
  end.

(** [isIn(['upvote', 'downvote', 'remove'])] *)
Definition isVoteType (voteType : string) : bool :=
  bool_decide (voteType = "upvote") || bool_decide (voteType = "downvote")
  || bool_decide (voteType = "remove").

(** [POST /api/answers/:id/vote] *)
Definition answers_vote (now : Date) (user : ReqUser) (id : ObjectId)
    (voteType : string) (st : Store) : Outcome :=
  let errs := validationResult [ (isVoteType voteType, "Invalid vote type") ] in
  match errs with
  | _ :: _ => reply st 400 (errors errs)
  | [] =>
    match answers st !! id with
    | None => reply st 404 (message "Answer not found")
    | Some a =>
      if Answer.isDeleted a then reply st 404 (message "Answer not found")
      else
        let a' :=
          if bool_decide (voteType = "remove") then Answer.removeVote a (_id user)
          else Answer.addVote a (_id user) voteType now in
        {| store := set_answers st (<[id := a']> (answers st));
           response :=
             {| status := 200;
                body := message_answer "Vote updated successfully"
                          (answerJson id a' user) |};
           emitted := [] |}
    end
  end.

(** [POST /api/answers/:id/accept].  The answer is read before the
    previously accepted one is unaccepted, and saved after it: when the two
    are the same document, the later save is the one that stays. *)
Definition answers_accept (app : App) (now : Date) (user : ReqUser)
    (id : ObjectId) (st : Store) : Outcome :=
  match answers st !! id with
  | None => reply st 404 (message "Answer not found")
  | Some a =>
    if Answer.isDeleted a then reply st 404 (message "Answer not found")
    else
      match questions st !! Answer.question a with
      | None => reply st 404 (message "Question not found")
      | Some q =>
        if Question.isDeleted q then reply st 404 (message "Question not found")
        else if bool_decide (Question.author q ≠ _id user) then
          reply st 403 (message "Only the question author can accept answers")
        else
          let answers1 :=
            match Question.acceptedAnswer q with
            | Some prev =>
              match answers st !! prev with
              | Some previousAccepted =>
                  <[prev := Answer.unacceptAnswer previousAccepted]> (answers st)
              | None => answers st
              end
            | None => answers st
            end in
          let a' := Answer.acceptAnswer a (_id user) now in
          let q' := Question.set_accepted q true (Some id) in
          let st1 :=
            set_questions (set_answers st (<[id := a']> answers1))
              (<[Answer.question a := q']> (questions st)) in
          let out :=
            if bool_decide (Answer.author a ≠ _id user) then
              notify app st1
                (Notification.create (Answer.author a) (_id user)
                   Notification.answer_accepted "Answer accepted"
                   ("Your answer to " +:+ dquote +:+ Question.title q +:+ dquote
                      +:+ " was accepted")
                   (Answer.question a) id)
            else (st1, []) in
          {| store := out.1;
             response :=
               {| status := 200;
                  body := message_answer "Answer accepted successfully"
                            (answerJson id a' user) |};
             emitted := out.2 |}
      end
  end.

(** [POST /api/answers/:id/unaccept] *)
Definition answers_unaccept (user : ReqUser) (id : ObjectId) (st : Store)
    : Outcome :=
  match answers st !! id with
  | None => reply st 404 (message "Answer not found")
  | Some a =>
    if Answer.isDeleted a then reply st 404 (message "Answer not found")
    else
      match questions st !! Answer.question a with
      | None => reply st 404 (message "Question not found")
      | Some q =>
        if Question.isDeleted q then reply st 404 (message "Question not found")
        else if bool_decide (Question.author q ≠ _id user) then
          reply st 403 (message "Only the question author can unaccept answers")
        else if negb (Answer.isAccepted a) then
          reply st 400 (message "This answer is not accepted")
        else
          let a' := Answer.unacceptAnswer a in
          let q' := Question.set_accepted q false None in
          {| store :=
               set_questions (set_answers st (<[id := a']> (answers st)))
                 (<[Answer.question a := q']> (questions st));
             response :=
               {| status := 200;
                  body := message_answer "Answer unaccepted successfully"
                            (answerJson id a' user) |};
             emitted := [] |}
      end
  end.

(** ** routes/questions.js *)

(** A query-string value that is read as a number: an integer literal, or
    any other text.  Only integer literals pass [isInt], so [parseInt] is
    never applied to other text: it is given [NaN] there. *)
Inductive QueryValue := QInt (z : Z) | QText (s : string).

Module ListQuery.
Record t := {
  page : option QueryValue;
  limit : option QueryValue;
  sort : option string;
  tag : option string;
  search : option string
}.
End ListQuery.

(** [optional().isInt({ min, max })] *)
Definition optionalIsInt (lo : Z) (hi : option Z) (v : option QueryValue) : bool :=
  match v with
  | None => true
  | Some (QInt z) =>
      Z.leb lo z && match hi with Some h => Z.leb z h | None => true end
  | Some (QText _) => false
  end.

(** [parseInt(v) || d]: [NaN] (here [None]) and [0] are falsy. *)
Definition parseIntOr (v : option QueryValue) (d : Z) : Z :=
  match v with
  | Some (QInt z) => if Z.eqb z 0 then d else z
  | _ => d
  end.

(** A string used as a condition: truthy when present and non-empty. *)
Definition truthy (s : option string) : option string :=
  match s with
  | Some x => if bool_decide (x = "") then None else Some x
  | None => None
  end.

(** [isIn(['newest', 'oldest', 'votes', 'views', 'unanswered'])] *)
Definition isSortOption (s : string) : bool :=
  bool_decide (s ∈ ["newest"; "oldest"; "votes"; "views"; "unanswered"]).

(** The filter object of [GET /api/questions]; [isDeleted: false] is always
    part of it. *)
Record Filter := {
  filter_tags : option string;
  filter_text : option string;
  filter_isAnswered : option bool
}.

(** [Math.ceil(total / limit)], computed on exact rationals: the quotient
    of two integers below 2^53 by a limit of at most 50 has the same
    ceiling as its nearest double. *)
Definition Math_ceil_div (total limit : Z) : Z :=
  Qceiling (Qdiv (inject_Z total) (inject_Z limit)).

(** [k] is the ceiling of [n / l]: the least integer with [n <= k * l]. *)
Definition is_ceil_div (n l k : Z) : Prop := (k - 1) * l < n ∧ n ≤ k * l.

(** The [pagination] object of a list response. *)
Definition pagination (page limit total : Z) : Pagination :=
  let totalPages := Math_ceil_div total limit in
  {| currentPage := page;
     totalPages := totalPages;
     totalQuestions := total;
     hasNextPage := Z.ltb page totalPages;
     hasPrevPage := Z.ltb 1 page |}.

(** The edit of [PUT /api/questions/:id]: the fields of [updateFields] that
    were set. *)
Record UpdateFields := {
  update_title : option string;
  update_description : option string;
  update_tags : option (list string)
}.

Definition questionJson (id : ObjectId) (q : Question.t) (user : ReqUser)
    : QuestionJson :=
  {| question_id := id; question := q;
     question_voteCount :=
       Z.of_nat (length (Votes.upvotes (Question.votes q)))
       - Z.of_nat (length (Votes.downvotes (Question.votes q)));
     question_userVote := Question.hasUserVoted q (_id user) |}.

Section Routes.

(** Collaborators of the routes that are not code of the repository:
    the string methods of the runtime, [JSON.stringify] of the
    [{ title, description, tags }] object, and the store's [$text]
    search. *)
Context (toLowerCase trim : string → string)
        (JSON_stringify : string → string → list string → string)
        (textSearch : string → Question.t → bool).

Definition matchesFilter (f : Filter) (q : Question.t) : bool :=
  negb (Question.isDeleted q)
  && match filter_tags f with
     | Some t => bool_decide (t ∈ Question.tags q)
     | None => true
     end
  && match filter_text f with
     | Some s => textSearch s q
     | None => true
     end
  && match filter_isAnswered f with
     | Some b => bool_decide (Question.isAnswered q = b)
     | None => true
     end.

(** The effective page and limit, and the filter, of a list request. *)
Definition listPage (query : ListQuery.t) : Z :=
  parseIntOr (ListQuery.page query) 1.

Definition listLimit (query : ListQuery.t) : Z :=
  parseIntOr (ListQuery.limit query) 10.

Definition listFilter (query : ListQuery.t) : Filter :=
  let sort := default "newest" (truthy (ListQuery.sort query)) in
  {| filter_tags := toLowerCase <$> truthy (ListQuery.tag query);
     filter_text := truthy (ListQuery.search query);
     filter_isAnswered :=
       if bool_decide (sort = "unanswered") then Some false else None |}.

(** The validation chain of [GET /api/questions]; the [isString] checks
    of [tag] and [search] hold of every string and are left out. *)
Definition questions_get_checks (query : ListQuery.t) : list (bool * string) :=
  [ (optionalIsInt 1 None (ListQuery.page query), "Page must be a positive integer");
    (optionalIsInt 1 (Some 50) (ListQuery.limit query), "Limit must be between 1 and 50");
    (match ListQuery.sort query with Some s => isSortOption s | None => true end,
     "Invalid sort option") ].

(** [GET /api/questions].  The response is modelled up to its
    [pagination] object; the page of questions itself is left out. *)
Definition questions_get (query : ListQuery.t) (st : Store) : Outcome :=
  let errs := validationResult (questions_get_checks query) in
  match errs with
  | _ :: _ => reply st 400 (errors errs)
  | [] =>
    let page := listPage query in
    let limit := listLimit query in
    let filter := listFilter query in
    let total := countDocuments (matchesFilter filter) (questions st) in
    reply st 200 (questions_page (pagination page limit total))
  end.

(** [isArray({ min: 1, max: 5 })] and the [tags.*] length check. *)
Definition tagChecks (tags : list string) : list (bool * string) :=
  (Nat.leb 1 (length tags) && Nat.leb (length tags) 5, "Must provide 1-5 tags")
  :: map (λ t, (isLength 2 (Some 20%nat) t,
                "Each tag must be between 2 and 20 characters")) tags.

(** [POST /api/questions].  [tags] is [None] when the body field is not
    an array. *)
Definition questions_post (user : ReqUser) (title description : string)
    (tags : option (list string)) (st : Store) : Outcome :=
  let errs := validationResult
    ([ (isLength 10 (Some 300%nat) title, "Title must be between 10 and 300 characters");
       (isLength 20 None description, "Description must be at least 20 characters long") ]
     ++ match tags with
        | Some ts => tagChecks ts
        | None => [(false, "Must provide 1-5 tags")]
        end) in
  match errs, tags with
  | [], Some ts =>
    let normalizedTags := map (λ tag, trim (toLowerCase tag)) ts in
    let q := Question.create title description normalizedTags (_id user) in
    let qid := freshId (questions st) in
    {| store := set_questions st (<[qid := q]> (questions st));
       response :=
         {| status := 201;
            body := message_question "Question created successfully"
                      {| question_id := qid; question := q;
                         question_voteCount := 0;
                         question_userVote := None |} |};
       emitted := [] |}
  | _, _ => reply st 400 (errors errs)
  end.

(** [optional().isLength(...)] *)
Definition optionalIsLength (lo : nat) (hi : option nat) (s : option string) : bool :=
  match s with Some x => isLength lo hi x | None => true end.

(** The validation chain of [PUT /api/questions/:id]. *)
Definition questions_put_checks (title description : option string)
    (tags : option (list string)) : list (bool * string) :=
  [ (optionalIsLength 10 (Some 300%nat) title, "Title must be between 10 and 300 characters");
    (optionalIsLength 20 None description, "Description must be at least 20 characters long") ]
  ++ match tags with Some ts => tagChecks ts | None => [] end.

(** [PUT /api/questions/:id] *)
Definition questions_put (now : Date) (user : ReqUser) (id : ObjectId)
    (title description : option string) (tags : option (list string))
    (editReason : option string) (st : Store) : Outcome :=
  let errs := validationResult (questions_put_checks title description tags) in
  match errs with
  | _ :: _ => reply st 400 (errors errs)
  | [] =>
    match questions st !! id with
    | None => reply st 404 (message "Question not found")
    | Some q =>
      if Question.isDeleted q then reply st 404 (message "Question not found")
      else if bool_decide (Question.author q ≠ _id user)
              && bool_decide (role user ≠ User.admin) then
        reply st 403 (message "Not authorized to edit this question")
      else
        let updateFields :=
          {| update_title :=
               match truthy title with
               | Some t => if bool_decide (t ≠ Question.title q) then Some t else None
               | None => None
               end;
             update_description :=
               match truthy description with
               | Some d =>
                   if bool_decide (d ≠ Question.description q) then Some d else None
               | None => None
               end;
             update_tags := map (λ tag, trim (toLowerCase tag)) <$> tags |} in
        match updateFields with
        | {| update_title := None; update_description := None; update_tags := None |} =>
            reply st 400 (message "No changes to update")
        | _ =>
          let q' :=
            {| Question.title := default (Question.title q) (update_title updateFields);
               Question.description :=
                 default (Question.description q) (update_description updateFields);
               Question.author := Question.author q;
               Question.tags := default (Question.tags q) (update_tags updateFields);
               Question.votes := Question.votes q;
               Question.views := Question.views q;
               Question.isAnswered := Question.isAnswered q;
               Question.acceptedAnswer := Question.acceptedAnswer q;
               Question.status := Question.status q;
               Question.bounty := Question.bounty q;
               Question.isEdited := true;
               Question.editHistory :=
                 Question.editHistory q ++
                 [{| editedBy := _id user; editedAt := now;
                     previousContent :=
                       JSON_stringify (Question.title q) (Question.description q)
                         (Question.tags q);
                     editReason := orNoReason editReason |}];
               Question.isDeleted := Question.isDeleted q;
               Question.deletedBy := Question.deletedBy q;
               Question.deletedAt := Question.deletedAt q;
               Question.deleteReason := Question.deleteReason q |} in
          {| store := set_questions st (<[id := q']> (questions st));
             response :=
               {| status := 200;
                  body := message_question "Question updated successfully"
                            (questionJson id q' user) |};
             emitted := [] |}
        end
    end
  end.

(** [DELETE /api/questions/:id]: a soft delete. *)
Definition questions_delete (now : Date) (user : ReqUser) (id : ObjectId)
    (reason : option string) (st : Store) : Outcome :=
  match questions st !! id with
  | None => reply st 404 (message "Question not found")
  | Some q =>
    if Question.isDeleted q then reply st 404 (message "Question not found")
    else if bool_decide (Question.author q ≠ _id user)
            && bool_decide (role user ≠ User.admin) then
      reply st 403 (message "Not authorized to delete this question")
    else
      let q' :=
        {| Question.title := Question.title q;
           Question.description := Question.description q;
           Question.author := Question.author q;
           Question.tags := Question.tags q;
           Question.votes := Question.votes q;
           Question.views := Question.views q;
           Question.isAnswered := Question.isAnswered q;
           Question.acceptedAnswer := Question.acceptedAnswer q;
           Question.status := Question.status q;
           Question.bounty := Question.bounty q;
           Question.isEdited := Question.isEdited q;
           Question.editHistory := Question.editHistory q;
           Question.isDeleted := true;
           Question.deletedBy := Some (_id user);
           Question.deletedAt := Some now;
           Question.deleteReason := Some (orNoReason reason) |} in
      {| store := set_questions st (<[id := q']> (questions st));
         response := {| status := 200; body := message "Question deleted successfully" |};
         emitted := [] |}
  end.

(** [POST /api/questions/:id/vote] *)
Definition questions_vote (now : Date) (user : ReqUser) (id : ObjectId)
    (voteType : string) (st : Store) : Outcome :=
  let errs := validationResult [ (isVoteType voteType, "Invalid vote type") ] in
  match errs with
  | _ :: _ => reply st 400 (errors errs)
  | [] =>
    match questions st !! id with
    | None => reply st 404 (message "Question not found")
    | Some q =>
      if Question.isDeleted q then reply st 404 (message "Question not found")
      else
        let q' :=
          if bool_decide (voteType = "remove") then Question.removeVote q (_id user)
          else Question.addVote q (_id user) voteType now in
        {| store := set_questions st (<[id := q']> (questions st));
           response :=
             {| status := 200;
                body := message_question "Vote updated successfully"
                          (questionJson id q' user) |};
           emitted := [] |}
    end
  end.

(** ** routes/users.js: the moderation routes, behind [requireAdmin] *)

(** [body('reason').notEmpty()]: the field is there and is not the empty
    string.  [reason] is [None] when the body has no such field. *)
Definition users_ban_checks (reason : option string) : list (bool * string) :=
  [ (bool_decide (is_Some (truthy reason)), "Ban reason is required") ].

(** [PUT /api/users/:id/ban] *)
Definition users_ban (id : ObjectId) (reason : option string) (st : Store)
    : Outcome :=
  let errs := validationResult (users_ban_checks reason) in
  match errs, reason with
  | [], Some r =>
    match users st !! id with
    | None => reply st 404 (message "User not found")
    | Some u =>
      if bool_decide (User.role u = User.admin) then
        reply st 403 (message "Cannot ban admin users")
      else
        {| store := set_users st (<[id := User.set_ban u true r]> (users st));
           response := {| status := 200; body := message "User banned successfully" |};
           emitted := [] |}
    end
  | _, _ => reply st 400 (errors errs)
  end.

(** [PUT /api/users/:id/unban] *)
Definition users_unban (id : ObjectId) (st : Store) : Outcome :=
  match users st !! id with
  | None => reply st 404 (message "User not found")
  | Some u =>
    {| store := set_users st (<[id := User.set_ban u false ""]> (users st));
       response := {| status := 200; body := message "User unbanned successfully" |};
       emitted := [] |}
  end.

(** [PUT /api/users/:id/role].  [newRole] is [None] when the body field
    is not one of ['user', 'admin']. *)
Definition users_role (id : ObjectId) (newRole : option User.Role) (st : Store)
    : Outcome :=
  match newRole with
  | Some User.user | Some User.admin =>
    match users st !! id with
    | None => reply st 404 (message "User not found")
    | Some u =>
      {| store := set_users st (<[id := User.set_role u (default User.user newRole)]> (users st));
         response := {| status := 200; body := message "User role updated successfully" |};
         emitted := [] |}
    end
  | _ => reply st 400 (errors ["Invalid role"])
  end.

(** ** The requests of the API and the states it can reach

    The routes modelled are those that write answers, questions or the
    moderation fields of users, and the question list. *)

Inductive Request :=
| POST_answers (user : ReqUser) (content : string) (questionId : option ObjectId)
| PUT_answers_id (user : ReqUser) (id : ObjectId) (content : string)
    (editReason : option string)
| DELETE_answers_id (user : ReqUser) (id : ObjectId) (reason : option string)
| POST_answers_id_vote (user : ReqUser) (id : ObjectId) (voteType : string)
| POST_answers_id_accept (user : ReqUser) (id : ObjectId)
| POST_answers_id_unaccept (user : ReqUser) (id : ObjectId)
| GET_questions (query : ListQuery.t)
| POST_questions (user : ReqUser) (title description : string)
    (tags : option (list string))
| PUT_questions_id (user : ReqUser) (id : ObjectId) (title description : option string)
    (tags : option (list string)) (editReason : option string)
| DELETE_questions_id (user : ReqUser) (id : ObjectId) (reason : option string)
| POST_questions_id_vote (user : ReqUser) (id : ObjectId) (voteType : string)
| PUT_users_id_ban (id : ObjectId) (reason : option string)
| PUT_users_id_unban (id : ObjectId)
| PUT_users_id_role (id : ObjectId) (newRole : option User.Role).

(** The router: one request, served at clock value [now]. *)
Definition handle (app : App) (now : Date) (r : Request) (st : Store) : Outcome :=
  match r with
  | POST_answers user content questionId => answers_post app user content questionId st
  | PUT_answers_id user id content editReason =>
      answers_put now user id content editReason st
  | DELETE_answers_id user id reason => answers_delete now user id reason st
  | POST_answers_id_vote user id voteType => answers_vote now user id voteType st
  | POST_answers_id_accept user id => answers_accept app now user id st
  | POST_answers_id_unaccept user id => answers_unaccept user id st
  | GET_questions query => questions_get query st
  | POST_questions user title description tags =>
      questions_post user title description tags st
  | PUT_questions_id user id title description tags editReason =>
      questions_put now user id title description tags editReason st
  | DELETE_questions_id user id reason => questions_delete now user id reason st
  | POST_questions_id_vote user id voteType => questions_vote now user id voteType st
  | PUT_users_id_ban id reason => users_ban id reason st
  | PUT_users_id_unban id => users_unban id st
  | PUT_users_id_role id newRole => users_role id newRole st
  end.

(** A database with registered users and no content yet. *)
Definition initial (us : gmap ObjectId User.t) : Store :=
  {| users := us; questions := ∅; answers := ∅; notifications := [] |}.

(** The stores the API reaches from an initial one, one request after
    the other. *)
Inductive reachable : Store → Prop :=
| reachable_initial us : reachable (initial us)
| reachable_handle app now r st :
    reachable st → reachable (store (handle app now r st)).

(** ** Invariants of the store *)

(** An answer flagged as accepted is the one its question points to. *)
Definition accept_coherent (st : Store) : Prop :=
  map_Forall (λ aid a,
    Answer.isAccepted a = true →
    (questions st !! Answer.question a) ≫= Question.acceptedAnswer = Some aid)
    (answers st).

(** An author has at most one answer that is not soft-deleted on a
    question. *)
Definition single_answer (st : Store) : Prop :=
  map_Forall (λ i a,
    map_Forall (λ j b,
      Answer.author a = Answer.author b →
      Answer.question a = Answer.question b →
      Answer.isDeleted a = false → Answer.isDeleted b = false → i = j)
      (answers st))
    (answers st).

#[global] Instance accept_coherent_dec st : Decision (accept_coherent st).
Proof. unfold accept_coherent. apply _. Defined.

#[global] Instance single_answer_dec st : Decision (single_answer st).
Proof. unfold single_answer. apply _. Defined.

(** The answers of question [qid] by [author] that are not soft-deleted. *)
Definition liveAnswers (st : Store) (author qid : ObjectId)
    : gmap ObjectId Answer.t :=
  filter (λ kv, Answer.question kv.2 = qid ∧ Answer.author kv.2 = author
                ∧ Answer.isDeleted kv.2 = false) (answers st).

(** [m'] holds no answer that [m] does not hold, under the same key, by
    the same author, on the same question and no less deleted. *)
Definition answers_refine (m' m : gmap ObjectId Answer.t) : Prop :=
  ∀ i a', m' !! i = Some a' →
    ∃ a, m !! i = Some a
         ∧ Answer.author a' = Answer.author a
         ∧ Answer.question a' = Answer.question a
         ∧ (Answer.isDeleted a' = false → Answer.isDeleted a = false).

(** The answers of question [qid] flagged as accepted. *)
Definition acceptedAnswers (st : Store) (qid : ObjectId)
    : gmap ObjectId Answer.t :=
  filter (λ kv, Answer.question kv.2 = qid ∧ Answer.isAccepted kv.2 = true)
    (answers st).

End Routes.

(** The ledger invariant, read on each kind of content record. *)
Definition question_ledger_ok (q : Question.t) : Prop :=
  Votes.ledger_ok (Question.voteCount q) (Question.votes q).

Definition answer_ledger_ok (a : Answer.t) : Prop :=
  Votes.ledger_ok (Answer.voteCount a) (Answer.votes a).

Definition comment_ledger_ok (c : Comment.t) : Prop :=
  Votes.ledger_ok (Comment.voteCount c) (Comment.votes c).

(** The two directions a vote can be set to. *)
Definition isDirection (voteType : string) : Prop :=
  voteType = "upvote" ∨ voteType = "downvote".

(** Every answer of [uid] on question [qid] is soft-deleted. *)
Definition noLiveAnswer (st : Store) (uid qid : ObjectId) : Prop :=
  ∀ i a, answers st !! i = Some a →
    Answer.question a = qid → Answer.author a = uid → Answer.isDeleted a = true.

(** The unaccept half of the notification rule, read literally: a
    successful unaccept asked by someone else than the answer's author adds
    a notification addressed to that author. *)
Definition claimed_unaccept_notifies : Prop :=
  ∀ user id st a,
    answers st !! id = Some a →
    status (response (answers_unaccept user id st)) = 200%nat →
    Answer.author a ≠ _id user →
    ∃ n, notifications (store (answers_unaccept user id st))
         = notifications st ++ [n]
         ∧ Notification.recipient n = Answer.author a.

(** ** A small forum, used to run the routes on concrete requests *)

Module Sample.

Definition alice : ReqUser :=
  {| _id := 1%nat; role := User.user; username := "alice" |}.
Definition bob : ReqUser :=
  {| _id := 2%nat; role := User.user; username := "bob" |}.
Definition carol : ReqUser :=
  {| _id := 3%nat; role := User.user; username := "carol" |}.

(** Bob is connected; the others are not. *)
Definition app : App :=
  {| io := true; connectedUsers := {[ 2%nat := "socket-bob" ]} |}.

(** Stand-ins for the collaborators of the question routes. *)
Definition same (s : string) : string := s.
Definition stringify (title description : string) (tags : list string) : string :=
  title +:+ description.
Definition noSearch (s : string) (q : Question.t) : bool := false.

(** Alice asks question 1; Bob and Carol answer it (answers 1 and 2). *)
Definition asked : Store :=
  store (questions_post same same alice "How to center a div"
           "I want to center a div with css" (Some ["css"; "html"]) (initial ∅)).

Definition posted : Store :=
  store (answers_post app carol "Use a grid container and place-items"
           (Some 1%nat)
           (store (answers_post app bob "Use a flex container and justify-content"
                     (Some 1%nat) asked))).

Definition q1 : Question.t :=
  Question.create "How to center a div" "I want to center a div with css"
    ["css"; "html"] 1.
Definition a1 : Answer.t :=
  Answer.create "Use a flex container and justify-content" 1 2.
Definition a2 : Answer.t :=
  Answer.create "Use a grid container and place-items" 1 3.

(** Alice then accepts Bob's answer, at time 10. *)
Definition accepted : Store := store (answers_accept app 10 alice 1 posted).

(** Or Bob soft-deletes his answer, at time 30. *)
Definition deleted : Store := store (answers_delete 30 bob 1 None posted).

(** A user table with a member (5) and an admin (6). *)
Definition member : User.t :=
  {| User.username := "mallory"; User.email := "mallory@example.org";
     User.password := "hash"; User.role := User.user; User.avatar := "";
     User.bio := ""; User.reputation := 0; User.badges := [];
     User.isBanned := false; User.banReason := ""; User.lastSeen := 0;
     User.emailVerified := false; User.emailVerificationToken := None;
     User.passwordResetToken := None; User.passwordResetExpires := None |}.

Definition registered : Store :=
  initial {[ 5%nat := member; 6%nat := User.set_role member User.admin ]}.

(** A ledger with an upvote of voter 7 and a downvote of voter 8. *)
Definition ledger : Votes.t :=
  {| Votes.upvotes := [{| Votes.user := 7%nat; Votes.createdAt := 1 |}];
     Votes.downvotes := [{| Votes.user := 8%nat; Votes.createdAt := 2 |}] |}.

(** The second page of three questions each. *)
Definition page2 : ListQuery.t :=
  {| ListQuery.page := Some (QInt 2); ListQuery.limit := Some (QInt 3);
     ListQuery.sort := None; ListQuery.tag := None; ListQuery.search := None |}.

End Sample.

(** ** models/Notification.js: the methods and statics

    The notification routes address a notification by its [_id]: for them
    the collection is a finite map, as the other collections are. *)

Module Notifications.

Definition set_read (n : Notification.t) (flag : bool) (at_ : option Date)
    : Notification.t :=
  {| Notification.recipient := Notification.recipient n;
     Notification.sender := Notification.sender n;
     Notification.type := Notification.type n;
     Notification.title := Notification.title n;
     Notification.message := Notification.message n;
     Notification.relatedQuestion := Notification.relatedQuestion n;
     Notification.relatedAnswer := Notification.relatedAnswer n;
     Notification.relatedComment := Notification.relatedComment n;
     Notification.isRead := flag;
     Notification.readAt := at_ |}.

Definition markAsRead (n : Notification.t) (now : Date) : Notification.t :=
  set_read n true (Some now).

Definition markAsUnread (n : Notification.t) : Notification.t :=
  set_read n false None.

(** The filter [{ recipient: userId }]. *)
Definition sentTo (userId : ObjectId) (n : Notification.t) : bool :=
  bool_decide (Notification.recipient n = userId).

(** The filter [{ recipient: userId, isRead: false }]. *)
Definition unreadOf (userId : ObjectId) (n : Notification.t) : bool :=
  sentTo userId n && negb (Notification.isRead n).

Definition getUnreadCount (userId : ObjectId) (c : gmap ObjectId Notification.t)
    : Z :=
  countDocuments (unreadOf userId) c.

(** [updateMany({ recipient, isRead: false }, { isRead: true, readAt })] *)
Definition markAllAsRead (userId : ObjectId) (now : Date)
    (c : gmap ObjectId Notification.t) : gmap ObjectId Notification.t :=
  (λ n, if unreadOf userId n then set_read n true (Some now) else n) <$> c.

End Notifications.

(** ** routes/notifications.js *)

(** What a notification route does: the collection it leaves and the
    response. *)
Record NotificationOutcome := {
  collection : gmap ObjectId Notification.t;
  answered : Response
}.

Definition replyN (c : gmap ObjectId Notification.t) (code : nat) (m : string)
    : NotificationOutcome :=
  {| collection := c; answered := {| status := code; body := message m |} |}.

(** [PUT /api/notifications/:id/read] *)
Definition notifications_read (now : Date) (user : ReqUser) (id : ObjectId)
    (c : gmap ObjectId Notification.t) : NotificationOutcome :=
  match c !! id with
  | None => replyN c 404 "Notification not found"
  | Some n =>
    if bool_decide (Notification.recipient n ≠ _id user) then
      replyN c 403 "Not authorized to access this notification"
    else
      replyN (<[id := Notifications.markAsRead n now]> c) 200
        "Notification marked as read"
  end.

(** [PUT /api/notifications/:id/unread] *)
Definition notifications_unread (user : ReqUser) (id : ObjectId)
    (c : gmap ObjectId Notification.t) : NotificationOutcome :=
  match c !! id with
  | None => replyN c 404 "Notification not found"
  | Some n =>
    if bool_decide (Notification.recipient n ≠ _id user) then
      replyN c 403 "Not authorized to access this notification"
    else
      replyN (<[id := Notifications.markAsUnread n]> c) 200
        "Notification marked as unread"
  end.

(** [PUT /api/notifications/mark-all-read] *)
Definition notifications_mark_all_read (now : Date) (user : ReqUser)
    (c : gmap ObjectId Notification.t) : NotificationOutcome :=
  replyN (Notifications.markAllAsRead (_id user) now c) 200
    "All notifications marked as read".

(** [DELETE /api/notifications/:id] *)
Definition notifications_delete (user : ReqUser) (id : ObjectId)
    (c : gmap ObjectId Notification.t) : NotificationOutcome :=
  match c !! id with
  | None => replyN c 404 "Notification not found"
  | Some n =>
    if bool_decide (Notification.recipient n ≠ _id user) then
      replyN c 403 "Not authorized to delete this notification"
    else
      replyN (delete id c) 200 "Notification deleted successfully"
  end.


(** [GET /api/notifications/unread-count]: the [unreadCount] of the body. *)
Definition notifications_unread_count (user : ReqUser)
    (c : gmap ObjectId Notification.t) : Z :=
  Notifications.getUnreadCount (_id user) c.

Module NotificationQuery.
Record t := {
  page : option QueryValue;
  limit : option QueryValue;
  unreadOnly : option string
}.
End NotificationQuery.

Record NotificationPagination := {
  n_currentPage : Z;
  n_totalPages : Z;
  totalNotifications : Z;
  n_hasNextPage : bool;
  n_hasPrevPage : bool
}.

(** The body of the list response, up to the page of notifications
    itself. *)
Inductive NotificationList :=
| list_errors (l : list string)
| list_page (p : NotificationPagination) (unreadCount : Z).

(** [optional().isBoolean()]: one of the four spellings of a boolean. *)
Definition optionalIsBoolean (s : option string) : bool :=
  match s with
  | Some x => bool_decide (x ∈ ["true"; "false"; "1"; "0"])
  | None => true
  end.

Definition notifications_get_checks (query : NotificationQuery.t)
    : list (bool * string) :=
  [ (optionalIsInt 1 None (NotificationQuery.page query),
     "Page must be a positive integer");
    (optionalIsInt 1 (Some 50) (NotificationQuery.limit query),
     "Limit must be between 1 and 50");
    (optionalIsBoolean (NotificationQuery.unreadOnly query),
     "unreadOnly must be a boolean") ].

(** The filter of the list: the caller's notifications, the unread ones
    only when the query says [unreadOnly=true]. *)
Definition notificationsFilter (query : NotificationQuery.t) (user : ReqUser)
    (n : Notification.t) : bool :=
  if bool_decide (NotificationQuery.unreadOnly query = Some "true") then
    Notifications.unreadOf (_id user) n
  else Notifications.sentTo (_id user) n.

(** [GET /api/notifications]: the status and the body. *)
Definition notifications_get (query : NotificationQuery.t) (user : ReqUser)
    (c : gmap ObjectId Notification.t) : nat * NotificationList :=
  let errs := validationResult (notifications_get_checks query) in
  match errs with
  | _ :: _ => (400%nat, list_errors errs)
  | [] =>
    let page := parseIntOr (NotificationQuery.page query) 1 in
    let limit := parseIntOr (NotificationQuery.limit query) 20 in
    let total := countDocuments (notificationsFilter query user) c in
    let totalPages := Math_ceil_div total limit in
    let unreadCount := Notifications.getUnreadCount (_id user) c in
    (200%nat,
     list_page
       {| n_currentPage := page;
          n_totalPages := totalPages;
          totalNotifications := total;
          n_hasNextPage := Z.ltb page totalPages;
          n_hasPrevPage := Z.ltb 1 page |}
       unreadCount)
  end.

(** ** routes/users.js: the public profile *)

Record PublicProfile := {
  profile_id : ObjectId;
  profile_username : string;
  profile_avatar : string;
  profile_bio : string;
  profile_reputation : Z;
  profile_badges : list User.Badge;
  profile_role : User.Role;
  profile_lastSeen : Date
}.

(** [userSchema.methods.getPublicProfile] *)
Definition getPublicProfile (id : ObjectId) (u : User.t) : PublicProfile :=
  {| profile_id := id;
     profile_username := User.username u;
     profile_avatar := User.avatar u;
     profile_bio := User.bio u;
     profile_reputation := User.reputation u;
     profile_badges := User.badges u;
     profile_role := User.role u;
     profile_lastSeen := User.lastSeen u |}.

Record ProfileStats := {
  stats_questions : Z;
  stats_answers : Z;
  stats_acceptedAnswers : Z
}.

Inductive ProfileResult :=
| profile_not_found
| profile_found (p : PublicProfile) (s : ProfileStats).

(** [GET /api/users/:id]: 404 "User not found", or the profile with its
    statistics. *)
Definition users_get_id (id : ObjectId) (st : Store) : ProfileResult :=
  match users st !! id with
  | None => profile_not_found
  | Some u =>
    if User.isBanned u then profile_not_found
    else
      profile_found (getPublicProfile id u)
        {| stats_questions :=
             countDocuments (λ q, bool_decide (Question.author q = id)
                                  && negb (Question.isDeleted q)) (questions st);
           stats_answers :=
             countDocuments (λ a, bool_decide (Answer.author a = id)
                                  && negb (Answer.isDeleted a)) (answers st);
           stats_acceptedAnswers :=
             countDocuments (λ a, bool_decide (Answer.author a = id)
                                  && Answer.isAccepted a
                                  && negb (Answer.isDeleted a)) (answers st) |}
  end.

(** ** The order of the routes

    A router tries its routes in the order they were registered and hands
    the request to the first whose method and path pattern match; the
    handlers of this repository all answer and never pass the request
    on. *)

Inductive Method := GET | POST | PUT | DELETE.

#[global] Instance Method_eq_dec : EqDecision Method.
Proof. solve_decision. Defined.

(** A segment of a path pattern: a fixed word or a [:name] parameter. *)
Inductive Segment := word (s : string) | param (name : string).

Record Route := {
  method : Method;
  pattern : list Segment;
  label : string
}.

(** A parameter takes any non-empty segment; a word takes itself. *)
Definition matchSegment (p : Segment) (s : string) : bool :=
  match p with
  | word w => bool_decide (w = s)
  | param _ => negb (bool_decide (s = ""))
  end.

Fixpoint matchPath (ps : list Segment) (path : list string) : bool :=
  match ps, path with
  | [], [] => true
  | p :: ps', s :: path' => matchSegment p s && matchPath ps' path'
  | _, _ => false
  end.

(** The route that serves a request, if any. *)
Definition dispatch (router : list Route) (m : Method) (path : list string)
    : option Route :=
  List.find (λ r, bool_decide (method r = m) && matchPath (pattern r) path) router.

(** routes/notifications.js, in the order of the file. *)
Definition notifications_router : list Route :=
  [ {| method := GET; pattern := []; label := "GET /api/notifications" |};
    {| method := GET; pattern := [word "unread-count"];
       label := "GET /api/notifications/unread-count" |};
    {| method := PUT; pattern := [param "id"; word "read"];
       label := "PUT /api/notifications/:id/read" |};
    {| method := PUT; pattern := [param "id"; word "unread"];
       label := "PUT /api/notifications/:id/unread" |};
    {| method := PUT; pattern := [word "mark-all-read"];
       label := "PUT /api/notifications/mark-all-read" |};
    {| method := DELETE; pattern := [param "id"];
       label := "DELETE /api/notifications/:id" |};
    {| method := DELETE; pattern := [word "clear-all"];
       label := "DELETE /api/notifications/clear-all" |};
    {| method := GET; pattern := [word "types"];
       label := "GET /api/notifications/types" |};
    {| method := GET; pattern := [word "by-type"; param "type"];
       label := "GET /api/notifications/by-type/:type" |} ].

(** routes/users.js, in the order of the file. *)
Definition users_router : list Route :=
  [ {| method := GET; pattern := []; label := "GET /api/users" |};
    {| method := GET; pattern := [param "id"]; label := "GET /api/users/:id" |};
    {| method := GET; pattern := [param "id"; word "questions"];
       label := "GET /api/users/:id/questions" |};
    {| method := GET; pattern := [param "id"; word "answers"];
       label := "GET /api/users/:id/answers" |};
    {| method := PUT; pattern := [param "id"; word "ban"];
       label := "PUT /api/users/:id/ban" |};
    {| method := PUT; pattern := [param "id"; word "unban"];
       label := "PUT /api/users/:id/unban" |};
    {| method := PUT; pattern := [param "id"; word "role"];
       label := "PUT /api/users/:id/role" |};
    {| method := GET; pattern := [word "stats"; word "overview"];
       label := "GET /api/users/stats/overview" |};
    {| method := GET; pattern := [word "search"];
       label := "GET /api/users/search" |} ].

(** routes/questions.js, in the order of the file. *)
Definition questions_router : list Route :=
  [ {| method := GET; pattern := []; label := "GET /api/questions" |};
    {| method := GET; pattern := [param "id"]; label := "GET /api/questions/:id" |};
    {| method := POST; pattern := []; label := "POST /api/questions" |};
    {| method := PUT; pattern := [param "id"]; label := "PUT /api/questions/:id" |};
    {| method := DELETE; pattern := [param "id"];
       label := "DELETE /api/questions/:id" |};
    {| method := POST; pattern := [param "id"; word "vote"];
       label := "POST /api/questions/:id/vote" |};
    {| method := GET; pattern := [word "tags"; word "popular"];
       label := "GET /api/questions/tags/popular" |} ].

(** routes/answers.js, in the order of the file. *)
Definition answers_router : list Route :=
  [ {| method := POST; pattern := []; label := "POST /api/answers" |};
    {| method := PUT; pattern := [param "id"]; label := "PUT /api/answers/:id" |};
    {| method := DELETE; pattern := [param "id"];
       label := "DELETE /api/answers/:id" |};
    {| method := POST; pattern := [param "id"; word "vote"];
       label := "POST /api/answers/:id/vote" |};
    {| method := POST; pattern := [param "id"; word "accept"];
       label := "POST /api/answers/:id/accept" |};
    {| method := POST; pattern := [param "id"; word "unaccept"];
       label := "POST /api/answers/:id/unaccept" |} ].

(** A path that fits a pattern: its words, and 1 for each parameter. *)
Definition pathOf (ps : list Segment) : list string :=
  map (λ p, match p with word w => w | param _ => "1" end) ps.

(** A route is live when some request reaches it. *)
Definition live (router : list Route) (r : Route) : Prop :=
  ∃ path, dispatch router (method r) path = Some r.

(** ** Readings of the responses *)

(** The [totalQuestions] of a list response. *)
Definition responseTotal (r : Response) : option Z :=
  match body r with
  | questions_page p => Some (totalQuestions p)
  | _ => None
  end.

(** The answer object of a response. *)
Definition responseAnswer (r : Response) : option AnswerJson :=
  match body r with
  | message_answer _ a => Some a
  | _ => None
  end.

(** The question object of a response. *)
Definition responseQuestion (r : Response) : option QuestionJson :=
  match body r with
  | message_question _ q => Some q
  | _ => None
  end.

(** The flag and the pointer of a question agree. *)
Definition answered_coherent (st : Store) : Prop :=
  map_Forall (λ _ q,
    Question.isAnswered q = true ↔ is_Some (Question.acceptedAnswer q))
    (questions st).

(** ** More sample data *)

Module Example.

(** An admin who has written nothing. *)
Definition root : ReqUser :=
  {| _id := 9%nat; role := User.admin; username := "root" |}.

(** The sample forum after Alice has soft-deleted her question, at time
    40. *)
Definition closed : Store :=
  store (questions_delete 40 Sample.alice 1 None Sample.posted).

(** The sample forum, Bob's answer accepted, with Bob registered. *)
Definition members : Store :=
  set_users Sample.accepted
    {[ 2%nat := Sample.member; 9%nat := User.set_role Sample.member User.admin ]}.

(** Three notifications: an unread one and a read one for Alice, an
    unread one for Bob. *)
Definition forAlice : Notification.t :=
  Notification.create 1 2 Notification.answer_received "New answer received"
    "bob answered your question" 1 1.

Definition forBob : Notification.t :=
  Notification.create 2 1 Notification.answer_accepted "Answer accepted"
    "Your answer was accepted" 1 1.

Definition inbox : gmap ObjectId Notification.t :=
  {[ 1%nat := forAlice; 2%nat := forBob;
     3%nat := Notifications.markAsRead forAlice 5 ]}.

(** The first page of the unanswered questions. *)
Definition unanswered : ListQuery.t :=
  {| ListQuery.page := None; ListQuery.limit := None;
     ListQuery.sort := Some "unanswered"; ListQuery.tag := None;
     ListQuery.search := None |}.

(** The unread notifications, by the default page and limit. *)
Definition unreadOnly : NotificationQuery.t :=
  {| NotificationQuery.page := None; NotificationQuery.limit := None;
     NotificationQuery.unreadOnly := Some "true" |}.

End Example.

(** ** Properties of the vote ledger *)

Section Ledger.

Import Votes.

Lemma voters_filter_notBy u v l :
  u ∈ voters (List.filter (notBy v) l) ↔ u ∈ voters l ∧ u ≠ v.
Proof.
  unfold voters. rewrite !list_elem_of_In, !in_map_iff. split.
  - intros (x & <- & Hx). apply filter_In in Hx as [Hin Hnb].
    split; [by exists x|].
    unfold notBy, isBy in Hnb. apply negb_true_iff, bool_decide_eq_false in Hnb.
    done.
  - intros [(x & <- & Hin) Hne]. exists x. split; [done|].
    apply filter_In. split; [done|].
    unfold notBy, isBy. by apply negb_true_iff, bool_decide_eq_false.
Qed.

Lemma entries_filter_notBy v l : entries v (List.filter (notBy v) l) = 0%nat.
Proof.
  unfold entries. induction l as [|x l IH]; [done|]. simpl.
  destruct (notBy v x) eqn:E; [|done]. simpl.
  unfold notBy in E. apply negb_true_iff in E. by rewrite E.
Qed.

Lemma entries_app v l1 l2 : entries v (l1 ++ l2) = (entries v l1 + entries v l2)%nat.
Proof. unfold entries. by rewrite List.filter_app, length_app. Qed.

Lemma entries_single v now : entries v [{| user := v; createdAt := now |}] = 1%nat.
Proof. unfold entries, isBy. simpl. by rewrite bool_decide_eq_true_2. Qed.

Lemma filter_notBy_idemp v l :
  List.filter (notBy v) (List.filter (notBy v) l) = List.filter (notBy v) l.
Proof.
  induction l as [|x l IH]; [done|]. simpl.
  destruct (notBy v x) eqn:E; [|done]. simpl. by rewrite E, IH.
Qed.

Lemma filter_notBy_own v l now :
  List.filter (notBy v) (l ++ [{| user := v; createdAt := now |}])
  = List.filter (notBy v) l.
Proof.
  rewrite List.filter_app. simpl. unfold notBy at 2, isBy. simpl.
  rewrite bool_decide_eq_true_2 by done. simpl. by rewrite app_nil_r.
Qed.

Lemma voters_app l1 l2 : voters (l1 ++ l2) = voters l1 ++ voters l2.
Proof. unfold voters. apply map_app. Qed.

Lemma exclusive_empty : exclusive Votes.empty.
Proof. intros u [H _]. simpl in H. by apply elem_of_nil in H. Qed.

Lemma exclusive_removeVote v userId : exclusive v → exclusive (removeVote v userId).
Proof.
  intros Hex u [H1 H2]. simpl in *.
  apply voters_filter_notBy in H1 as [H1 _].
  apply voters_filter_notBy in H2 as [H2 _].
  by apply (Hex u).
Qed.

Lemma exclusive_addVote v userId voteType now :
  exclusive v → exclusive (addVote v userId voteType now).
Proof.
  intros Hex u. unfold addVote.
  repeat case_bool_decide; simpl; intros [H1 H2].
  - rewrite voters_app in H1. apply elem_of_app in H1 as [H1|H1].
    + apply voters_filter_notBy in H1 as [H1 _].
      apply voters_filter_notBy in H2 as [H2 _]. by apply (Hex u).
    + simpl in H1. apply list_elem_of_singleton in H1 as ->.
      by apply voters_filter_notBy in H2 as [_ H2].
  - rewrite voters_app in H2. apply elem_of_app in H2 as [H2|H2].
    + apply voters_filter_notBy in H1 as [H1 _].
      apply voters_filter_notBy in H2 as [H2 _]. by apply (Hex u).
    + simpl in H2. apply list_elem_of_singleton in H2 as ->.
      by apply voters_filter_notBy in H1 as [_ H1].
  - apply voters_filter_notBy in H1 as [H1 _].
    apply voters_filter_notBy in H2 as [H2 _]. by apply (Hex u).
Qed.

Lemma ledger_ok_voteCount v : exclusive v → ledger_ok (voteCount v) v.
Proof. by split. Qed.

End Ledger.

(** C2.  On every content record (question, answer, comment) the derived
    vote count is the number of upvote entries minus the number of
    downvote entries and no voter id is in both arrays: this holds of a
    freshly created record and is kept by [addVote] and [removeVote]. *)
Theorem vote_ledger_invariant :
  ((∀ title description tags author,
      question_ledger_ok (Question.create title description tags author))
   ∧ (∀ q userId voteType now,
      question_ledger_ok q → question_ledger_ok (Question.addVote q userId voteType now))
   ∧ (∀ q userId,
      question_ledger_ok q → question_ledger_ok (Question.removeVote q userId)))
  ∧ ((∀ content question author,
      answer_ledger_ok (Answer.create content question author))
   ∧ (∀ a userId voteType now,
      answer_ledger_ok a → answer_ledger_ok (Answer.addVote a userId voteType now))
   ∧ (∀ a userId,
      answer_ledger_ok a → answer_ledger_ok (Answer.removeVote a userId)))
  ∧ ((∀ content author question answer parentComment,
      comment_ledger_ok (Comment.create content author question answer parentComment))
   ∧ (∀ c userId voteType now,
      comment_ledger_ok c → comment_ledger_ok (Comment.addVote c userId voteType now))
   ∧ (∀ c userId,
      comment_ledger_ok c → comment_ledger_ok (Comment.removeVote c userId))).
Proof.
  unfold question_ledger_ok, answer_ledger_ok, comment_ledger_ok.
  repeat split; simpl; intros;
    try apply exclusive_empty;
    try (apply exclusive_addVote; by destruct H);
    try (apply exclusive_removeVote; by destruct H).
Qed.

(** C3.  [addVote(v, d)] for a direction [d] removes every entry of [v]
    from both arrays and appends one entry of [v] to the array of [d], so
    [v] then has exactly one entry, in that array; doing it again leaves
    the same voters in both arrays (and the same ledger when the clock has
    not moved); an upvote followed by a downvote of the same voter leaves
    one entry of the voter, in the downvotes, and none in the upvotes. *)
Theorem addVote_replaces (v : Votes.t) (userId : ObjectId) (voteType : string)
    (now : Date) :
  isDirection voteType →
  let v' := Votes.addVote v userId voteType now in
  let entry := {| Votes.user := userId; Votes.createdAt := now |} in
  let ups := List.filter (Votes.notBy userId) (Votes.upvotes v) in
  let downs := List.filter (Votes.notBy userId) (Votes.downvotes v) in
  (voteType = "upvote" → Votes.upvotes v' = ups ++ [entry] ∧ Votes.downvotes v' = downs)
  ∧ (voteType = "downvote" →
       Votes.upvotes v' = ups ∧ Votes.downvotes v' = downs ++ [entry])
  ∧ Votes.entries userId (Votes.upvotes v')
      = (if bool_decide (voteType = "upvote") then 1 else 0)%nat
  ∧ Votes.entries userId (Votes.downvotes v')
      = (if bool_decide (voteType = "downvote") then 1 else 0)%nat
  ∧ (∀ now',
       let v'' := Votes.addVote v' userId voteType now' in
       Votes.voters (Votes.upvotes v'') = Votes.voters (Votes.upvotes v')
       ∧ Votes.voters (Votes.downvotes v'') = Votes.voters (Votes.downvotes v'))
  ∧ Votes.addVote v' userId voteType now = v'
  ∧ (∀ now',
       let s := Votes.addVote (Votes.addVote v userId "upvote" now)
                  userId "downvote" now' in
       Votes.entries userId (Votes.upvotes s) = 0%nat
       ∧ Votes.entries userId (Votes.downvotes s) = 1%nat
       ∧ Votes.upvotes s = ups).
Proof.
  intros Hd. simpl.
  destruct Hd as [-> | ->]; unfold Votes.addVote; simpl;
    rewrite ?entries_app, ?entries_filter_notBy, ?entries_single;
    rewrite ?filter_notBy_own, ?filter_notBy_idemp;
    split_and!; try done; intros now';
    rewrite ?voters_app, ?entries_app, ?entries_filter_notBy, ?entries_single;
    done.
Qed.

(** ** Properties of the store and of the routes *)

Section StoreLemmas.

Lemma freshId_fresh {V} (m : gmap ObjectId V) : m !! freshId m = None.
Proof.
  apply not_elem_of_dom. intros Hin.
  apply elem_of_elements in Hin. apply max_list_elem_of_le in Hin.
  unfold freshId in Hin. lia.
Qed.

Lemma findOne_None {V} (matches : V → bool) (m : gmap ObjectId V) :
  findOne matches m = None ↔ ∀ i x, m !! i = Some x → matches x = false.
Proof.
  unfold findOne. split.
  - intros Hn i x Hl.
    apply (find_none _ _ Hn (i, x)).
    apply list_elem_of_In. by apply elem_of_map_to_list.
  - intros Hall. destruct (List.find _ _) as [[i x]|] eqn:E; [|done].
    apply find_some in E as [Hin Hm].
    apply list_elem_of_In, elem_of_map_to_list in Hin.
    simpl in Hm. by rewrite (Hall i x Hin) in Hm.
Qed.

Lemma findOne_Some {V} (matches : V → bool) (m : gmap ObjectId V) i x :
  findOne matches m = Some (i, x) → m !! i = Some x ∧ matches x = true.
Proof.
  unfold findOne. intros E. apply find_some in E as [Hin Hm].
  by apply list_elem_of_In, elem_of_map_to_list in Hin.
Qed.

Lemma findOne_is_Some {V} (matches : V → bool) (m : gmap ObjectId V) i x :
  m !! i = Some x → matches x = true → is_Some (findOne matches m).
Proof.
  intros Hl Hm. destruct (findOne matches m) eqn:E; [by eexists|].
  rewrite findOne_None in E. by rewrite (E i x Hl) in Hm.
Qed.

(** *** Coherence of the acceptance flags *)

Lemma accept_coherent_lookup st aid a :
  accept_coherent st → answers st !! aid = Some a → Answer.isAccepted a = true →
  ∃ q, questions st !! Answer.question a = Some q
       ∧ Question.acceptedAnswer q = Some aid.
Proof.
  intros Hc Hl Hacc. specialize (Hc aid a Hl Hacc). simpl in Hc.
  apply bind_Some in Hc. done.
Qed.

Lemma accept_coherent_ext st st' :
  answers st' = answers st → questions st' = questions st →
  accept_coherent st → accept_coherent st'.
Proof. unfold accept_coherent. by intros -> ->. Qed.

Lemma accept_coherent_answer_unflagged st id a' :
  Answer.isAccepted a' = false →
  accept_coherent st → accept_coherent (set_answers st (<[id := a']> (answers st))).
Proof.
  intros Hf Hc aid x Hl Hacc. simpl in *.
  apply lookup_insert_Some in Hl as [[<- <-]|[Hne Hl]]; [congruence|].
  by apply (Hc aid x).
Qed.

Lemma accept_coherent_answer_update st id a a' :
  answers st !! id = Some a →
  Answer.question a' = Answer.question a →
  (Answer.isAccepted a' = true → Answer.isAccepted a = true) →
  accept_coherent st → accept_coherent (set_answers st (<[id := a']> (answers st))).
Proof.
  intros Ha Hq Hf Hc aid x Hl Hacc. simpl in *.
  apply lookup_insert_Some in Hl as [[<- <-]|[Hne Hl]].
  - rewrite Hq. by apply (Hc id a Ha), Hf.
  - by apply (Hc aid x).
Qed.

Lemma accept_coherent_question_update st id q q' :
  questions st !! id = Some q →
  Question.acceptedAnswer q' = Question.acceptedAnswer q →
  accept_coherent st → accept_coherent (set_questions st (<[id := q']> (questions st))).
Proof.
  intros Hq Hacc Hc aid x Hl Hx. simpl in *.
  specialize (Hc aid x Hl Hx). simpl in Hc.
  destruct (decide (id = Answer.question x)) as [E|Hne].
  - rewrite <- E in *. rewrite lookup_insert_eq. rewrite Hq in Hc. simpl in *.
    congruence.
  - by rewrite lookup_insert_ne.
Qed.

Lemma accept_coherent_question_new st id q' :
  questions st !! id = None →
  accept_coherent st → accept_coherent (set_questions st (<[id := q']> (questions st))).
Proof.
  intros Hq Hc aid x Hl Hx. simpl in *.
  specialize (Hc aid x Hl Hx). simpl in Hc.
  destruct (decide (id = Answer.question x)) as [E|Hne].
  - rewrite <- E in Hc. by rewrite Hq in Hc.
  - by rewrite lookup_insert_ne.
Qed.

Lemma accept_coherent_set_notifications st l :
  accept_coherent st → accept_coherent (set_notifications st l).
Proof. done. Qed.

Lemma accept_coherent_notify app st n :
  accept_coherent st → accept_coherent (notify app st n).1.
Proof. by apply accept_coherent_ext. Qed.

(** The three writes of a successful accept keep the flags coherent. *)
Lemma accept_coherent_accept st id a q uid now :
  answers st !! id = Some a →
  questions st !! Answer.question a = Some q →
  accept_coherent st →
  accept_coherent
    (set_questions
       (set_answers st
          (<[id := Answer.acceptAnswer a uid now]>
             (match Question.acceptedAnswer q with
              | Some prev =>
                match answers st !! prev with
                | Some previousAccepted =>
                    <[prev := Answer.unacceptAnswer previousAccepted]> (answers st)
                | None => answers st
                end
              | None => answers st
              end)))
       (<[Answer.question a := Question.set_accepted q true (Some id)]> (questions st))).
Proof.
  intros Ha Hq Hc aid x Hl Hx. simpl in *.
  apply lookup_insert_Some in Hl as [[<- <-]|[Hne Hl]].
  { simpl. by rewrite lookup_insert_eq. }
  assert (Hold : answers st !! aid = Some x
                 ∧ Question.acceptedAnswer q ≠ Some aid).
  { destruct (Question.acceptedAnswer q) as [prev|] eqn:Eprev; [|done].
    destruct (answers st !! prev) as [p|] eqn:Ep.
    - apply lookup_insert_Some in Hl as [[<- <-]|[Hne' Hl]]; [done|].
      split; [done|congruence].
    - split; [done|]. intros [= ->]. congruence. }
  destruct Hold as [Hl' Hnacc].
  destruct (accept_coherent_lookup _ _ _ Hc Hl' Hx) as (qx & Hqx & Haccx).
  destruct (decide (Answer.question a = Answer.question x)) as [E|Hneq].
  - rewrite <- E in Hqx. congruence.
  - rewrite lookup_insert_ne by done. rewrite Hqx. done.
Qed.

(** So do the two writes of a successful unaccept. *)
Lemma accept_coherent_unaccept st id a q :
  answers st !! id = Some a →
  Answer.isAccepted a = true →
  questions st !! Answer.question a = Some q →
  accept_coherent st →
  accept_coherent
    (set_questions
       (set_answers st (<[id := Answer.unacceptAnswer a]> (answers st)))
       (<[Answer.question a := Question.set_accepted q false None]> (questions st))).
Proof.
  intros Ha Hacc Hq Hc aid x Hl Hx. simpl in *.
  apply lookup_insert_Some in Hl as [[<- <-]|[Hne Hl]]; [done|].
  destruct (accept_coherent_lookup _ _ _ Hc Ha Hacc) as (qa & Hqa & Hacca).
  destruct (accept_coherent_lookup _ _ _ Hc Hl Hx) as (qx & Hqx & Haccx).
  destruct (decide (Answer.question a = Answer.question x)) as [E|Hneq].
  - rewrite <- E in Hqx. congruence.
  - rewrite lookup_insert_ne by done. rewrite Hqx. done.
Qed.

(** *** One live answer per author and question *)

Lemma single_answer_lookup st i j a b :
  single_answer st →
  answers st !! i = Some a → answers st !! j = Some b →
  Answer.author a = Answer.author b → Answer.question a = Answer.question b →
  Answer.isDeleted a = false → Answer.isDeleted b = false → i = j.
Proof. intros Hs Hi Hj. by apply (Hs i a Hi j b Hj). Qed.

Lemma answers_refine_refl m : answers_refine m m.
Proof. intros i a Hi. by exists a. Qed.

Lemma answers_refine_insert m1 m id a a' :
  answers_refine m1 m → m !! id = Some a →
  Answer.author a' = Answer.author a → Answer.question a' = Answer.question a →
  (Answer.isDeleted a' = false → Answer.isDeleted a = false) →
  answers_refine (<[id := a']> m1) m.
Proof.
  intros Hr Ha H1 H2 H3 i x Hl.
  apply lookup_insert_Some in Hl as [[<- <-]|[Hne Hl]]; [by exists a|].
  by apply Hr.
Qed.

Lemma single_answer_refine st m' :
  answers_refine m' (answers st) →
  single_answer st → single_answer (set_answers st m').
Proof.
  intros Hr Hs i a' Hi j b' Hj Hau Hqu Hda Hdb. simpl in *.
  destruct (Hr i a' Hi) as (a & Ha & Ea1 & Ea2 & Ea3).
  destruct (Hr j b' Hj) as (b & Hb & Eb1 & Eb2 & Eb3).
  apply (single_answer_lookup st i j a b); auto; congruence.
Qed.

Lemma single_answer_ext st st' :
  answers st' = answers st → single_answer st → single_answer st'.
Proof. unfold single_answer. by intros ->. Qed.

(** A new answer keeps the invariant when its author has no live answer
    on the question. *)
Lemma single_answer_new st id content qid uid :
  answers st !! id = None →
  (∀ i x, answers st !! i = Some x →
     (bool_decide (Answer.question x = qid) && bool_decide (Answer.author x = uid)
      && negb (Answer.isDeleted x)) = false) →
  single_answer st →
  single_answer (set_answers st (<[id := Answer.create content qid uid]> (answers st))).
Proof.
  intros Hfresh Hnone Hs i a Hi j b Hj Hau Hqu Hda Hdb. simpl in *.
  assert (Hclash : ∀ k x, answers st !! k = Some x →
            Answer.author x = uid → Answer.question x = qid →
            Answer.isDeleted x = false → False).
  { intros k x Hk E1 E2 E3. specialize (Hnone k x Hk).
    rewrite !bool_decide_eq_true_2, E3 in Hnone by done. done. }
  apply lookup_insert_Some in Hi as [[<- <-]|[Hni Hi]];
    apply lookup_insert_Some in Hj as [[<- <-]|[Hnj Hj]]; simpl in *.
  - done.
  - exfalso. by apply (Hclash j b Hj).
  - exfalso. by apply (Hclash i a Hi).
  - by apply (single_answer_lookup st i j a b).
Qed.

End StoreLemmas.

Section Invariants.

Context (toLowerCase trim : string → string)
        (JSON_stringify : string → string → list string → string)
        (textSearch : string → Question.t → bool).

Local Abbreviation handle := (handle toLowerCase trim JSON_stringify textSearch).
Local Abbreviation reachable := (reachable toLowerCase trim JSON_stringify textSearch).

(** Every store the routes leave is one of a few shapes; the tactic
    walks through the early returns of a handler. *)
Local Ltac early_returns :=
  repeat (case_match; simpl in *; try done).

Lemma answers_post_coherent app user content questionId st :
  accept_coherent st →
  accept_coherent (store (answers_post app user content questionId st)).
Proof.
  intros Hc. unfold answers_post. early_returns.
  - by apply accept_coherent_set_notifications, accept_coherent_answer_unflagged.
  - by apply accept_coherent_answer_unflagged.
Qed.

Lemma answers_put_coherent now user id content editReason st :
  accept_coherent st →
  accept_coherent (store (answers_put now user id content editReason st)).
Proof.
  intros Hc. unfold answers_put. early_returns.
  by eapply accept_coherent_answer_update.
Qed.

Lemma answers_delete_coherent now user id reason st :
  accept_coherent st →
  accept_coherent (store (answers_delete now user id reason st)).
Proof.
  intros Hc. unfold answers_delete. early_returns.
  by eapply accept_coherent_answer_update.
Qed.

Lemma answers_vote_coherent now user id voteType st :
  accept_coherent st →
  accept_coherent (store (answers_vote now user id voteType st)).
Proof.
  intros Hc. unfold answers_vote. early_returns.
  all: by eapply accept_coherent_answer_update.
Qed.

Lemma answers_accept_coherent app now user id st :
  accept_coherent st →
  accept_coherent (store (answers_accept app now user id st)).
Proof.
  intros Hc. unfold answers_accept.
  destruct (answers st !! id) as [a|] eqn:Ha; [|done].
  destruct (Answer.isDeleted a); [done|].
  destruct (questions st !! Answer.question a) as [q|] eqn:Hq; [|done].
  destruct (Question.isDeleted q); [done|].
  case_bool_decide; [done|]. simpl.
  pose proof (accept_coherent_accept st id a q (_id user) now Ha Hq Hc) as Hc'.
  case_bool_decide; [by apply accept_coherent_notify|done].
Qed.

Lemma answers_unaccept_coherent user id st :
  accept_coherent st →
  accept_coherent (store (answers_unaccept user id st)).
Proof.
  intros Hc. unfold answers_unaccept.
  destruct (answers st !! id) as [a|] eqn:Ha; [|done].
  destruct (Answer.isDeleted a); [done|].
  destruct (questions st !! Answer.question a) as [q|] eqn:Hq; [|done].
  destruct (Question.isDeleted q); [done|].
  case_bool_decide; [done|].
  destruct (Answer.isAccepted a) eqn:Hacc; [|done]. simpl.
  by apply accept_coherent_unaccept.
Qed.

Lemma questions_get_store query st :
  store (questions_get toLowerCase textSearch query st) = st.
Proof. unfold questions_get. by early_returns. Qed.

Lemma questions_post_coherent user title description tags st :
  accept_coherent st →
  accept_coherent
    (store (questions_post toLowerCase trim user title description tags st)).
Proof.
  intros Hc. unfold questions_post. early_returns.
  apply accept_coherent_question_new; [apply freshId_fresh|done].
Qed.

Lemma questions_put_coherent now user id title description tags editReason st :
  accept_coherent st →
  accept_coherent
    (store (questions_put toLowerCase trim JSON_stringify now user id title
              description tags editReason st)).
Proof.
  intros Hc. unfold questions_put. early_returns.
  all: by eapply accept_coherent_question_update.
Qed.

Lemma questions_delete_coherent now user id reason st :
  accept_coherent st →
  accept_coherent (store (questions_delete now user id reason st)).
Proof.
  intros Hc. unfold questions_delete. early_returns.
  by eapply accept_coherent_question_update.
Qed.

Lemma questions_vote_coherent now user id voteType st :
  accept_coherent st →
  accept_coherent (store (questions_vote now user id voteType st)).
Proof.
  intros Hc. unfold questions_vote. early_returns.
  all: by eapply accept_coherent_question_update.
Qed.

Lemma users_routes_content id reason newRole st :
  let same st' := answers st' = answers st ∧ questions st' = questions st
                  ∧ notifications st' = notifications st in
  same (store (users_ban id reason st))
  ∧ same (store (users_unban id st))
  ∧ same (store (users_role id newRole st)).
Proof. unfold users_ban, users_unban, users_role. by early_returns. Qed.

(** No request breaks the coherence of the acceptance flags. *)
Lemma handle_accept_coherent app now r st :
  accept_coherent st → accept_coherent (store (handle app now r st)).
Proof.
  intros Hc. destruct r; simpl.
  - by apply answers_post_coherent.
  - by apply answers_put_coherent.
  - by apply answers_delete_coherent.
  - by apply answers_vote_coherent.
  - by apply answers_accept_coherent.
  - by apply answers_unaccept_coherent.
  - by rewrite questions_get_store.
  - by apply questions_post_coherent.
  - by apply questions_put_coherent.
  - by apply questions_delete_coherent.
  - by apply questions_vote_coherent.
  - destruct (users_routes_content id reason None st) as ((? & ? & _) & _).
    by eapply accept_coherent_ext.
  - destruct (users_routes_content id None None st) as (_ & (? & ? & _) & _).
    by eapply accept_coherent_ext.
  - destruct (users_routes_content id None newRole st) as (_ & _ & (? & ? & _)).
    by eapply accept_coherent_ext.
Qed.

Lemma single_answer_update st id a a' :
  answers st !! id = Some a →
  Answer.author a' = Answer.author a → Answer.question a' = Answer.question a →
  (Answer.isDeleted a' = false → Answer.isDeleted a = false) →
  single_answer st → single_answer (set_answers st (<[id := a']> (answers st))).
Proof.
  intros Ha H1 H2 H3. apply single_answer_refine.
  eapply answers_refine_insert; eauto using answers_refine_refl.
Qed.

Lemma answers_post_single app user content questionId st :
  single_answer st →
  single_answer (store (answers_post app user content questionId st)).
Proof.
  intros Hs. unfold answers_post. early_returns.
  all: match goal with H : findOne _ _ = None |- _ => rewrite findOne_None in H end.
  - eapply single_answer_ext; [|by apply single_answer_new; [apply freshId_fresh|..]].
    done.
  - by apply single_answer_new; [apply freshId_fresh|..].
Qed.

Lemma answers_put_single now user id content editReason st :
  single_answer st →
  single_answer (store (answers_put now user id content editReason st)).
Proof.
  intros Hs. unfold answers_put. early_returns.
  by eapply single_answer_update.
Qed.

Lemma answers_delete_single now user id reason st :
  single_answer st →
  single_answer (store (answers_delete now user id reason st)).
Proof.
  intros Hs. unfold answers_delete. early_returns.
  by eapply single_answer_update.
Qed.

Lemma answers_vote_single now user id voteType st :
  single_answer st →
  single_answer (store (answers_vote now user id voteType st)).
Proof.
  intros Hs. unfold answers_vote. early_returns.
  all: by eapply single_answer_update.
Qed.

Lemma answers_accept_single app now user id st :
  single_answer st →
  single_answer (store (answers_accept app now user id st)).
Proof.
  intros Hs. unfold answers_accept.
  destruct (answers st !! id) as [a|] eqn:Ha; [|done].
  destruct (Answer.isDeleted a); [done|].
  destruct (questions st !! Answer.question a) as [q|] eqn:Hq; [|done].
  destruct (Question.isDeleted q); [done|].
  case_bool_decide; [done|]. simpl.
  eapply single_answer_ext with
    (st := set_answers st (<[id := Answer.acceptAnswer a (_id user) now]> _)).
  { by case_bool_decide. }
  apply single_answer_refine; [|done].
  eapply answers_refine_insert; eauto.
  destruct (Question.acceptedAnswer q) as [prev|]; [|apply answers_refine_refl].
  destruct (answers st !! prev) as [p|] eqn:Hp; [|apply answers_refine_refl].
  eapply answers_refine_insert; eauto using answers_refine_refl.
Qed.

Lemma answers_unaccept_single user id st :
  single_answer st →
  single_answer (store (answers_unaccept user id st)).
Proof.
  intros Hs. unfold answers_unaccept. early_returns.
  eapply single_answer_ext with
    (st := set_answers st (<[id := Answer.unacceptAnswer _]> (answers st)));
    [done|].
  by eapply single_answer_update.
Qed.

Lemma questions_post_answers user title description tags st :
  answers (store (questions_post toLowerCase trim user title description tags st))
  = answers st.
Proof. unfold questions_post. by early_returns. Qed.

Lemma questions_put_answers now user id title description tags editReason st :
  answers (store (questions_put toLowerCase trim JSON_stringify now user id
                    title description tags editReason st)) = answers st.
Proof. unfold questions_put. by early_returns. Qed.

Lemma questions_delete_answers now user id reason st :
  answers (store (questions_delete now user id reason st)) = answers st.
Proof. unfold questions_delete. by early_returns. Qed.

Lemma questions_vote_answers now user id voteType st :
  answers (store (questions_vote now user id voteType st)) = answers st.
Proof. unfold questions_vote. by early_returns. Qed.

(** No request gives an author a second live answer on a question. *)
Lemma handle_single_answer app now r st :
  single_answer st → single_answer (store (handle app now r st)).
Proof.
  intros Hs. destruct r; simpl.
  - by apply answers_post_single.
  - by apply answers_put_single.
  - by apply answers_delete_single.
  - by apply answers_vote_single.
  - by apply answers_accept_single.
  - by apply answers_unaccept_single.
  - by rewrite questions_get_store.
  - eapply single_answer_ext; [apply questions_post_answers|done].
  - eapply single_answer_ext; [apply questions_put_answers|done].
  - eapply single_answer_ext; [apply questions_delete_answers|done].
  - eapply single_answer_ext; [apply questions_vote_answers|done].
  - destruct (users_routes_content id reason None st) as ((? & ? & _) & _).
    by eapply single_answer_ext.
  - destruct (users_routes_content id None None st) as (_ & (? & ? & _) & _).
    by eapply single_answer_ext.
  - destruct (users_routes_content id None newRole st) as (_ & _ & (? & ? & _)).
    by eapply single_answer_ext.
Qed.

(** Both invariants hold of every store the API reaches. *)
Lemma reachable_invariants st :
  reachable st → accept_coherent st ∧ single_answer st.
Proof.
  induction 1 as [us|app now r st Hr [IHc IHs]].
  - split; intros i a Hl; simpl in Hl; by rewrite lookup_empty in Hl.
  - split; [by apply handle_accept_coherent|by apply handle_single_answer].
Qed.

End Invariants.

(** ** The acceptance protocol *)

Section Acceptance.

(** What a successful accept writes. *)
Lemma answers_accept_success app now user id st a q :
  answers st !! id = Some a → Answer.isDeleted a = false →
  questions st !! Answer.question a = Some q → Question.isDeleted q = false →
  Question.author q = _id user →
  let o := answers_accept app now user id st in
  status (response o) = 200%nat
  ∧ answers (store o)
    = <[id := Answer.acceptAnswer a (_id user) now]>
        (match Question.acceptedAnswer q with
         | Some prev =>
           match answers st !! prev with
           | Some previousAccepted =>
               <[prev := Answer.unacceptAnswer previousAccepted]> (answers st)
           | None => answers st
           end
         | None => answers st
         end)
  ∧ questions (store o)
    = <[Answer.question a := Question.set_accepted q true (Some id)]> (questions st)
  ∧ users (store o) = users st
  ∧ notifications (store o)
    = notifications st ++
      (if bool_decide (Answer.author a ≠ _id user) then
         [Notification.create (Answer.author a) (_id user)
            Notification.answer_accepted "Answer accepted"
            ("Your answer to " +:+ dquote +:+ Question.title q +:+ dquote
               +:+ " was accepted")
            (Answer.question a) id]
       else []).
Proof.
  intros Ha Hda Hq Hdq Hau. simpl. unfold answers_accept.
  rewrite Ha, Hda, Hq, Hdq. rewrite bool_decide_eq_false_2 by (by intros ?).
  case_bool_decide; simpl; rewrite ?app_nil_r; done.
Qed.

(** A successful accept answers 200 only on a live answer of a live
    question, asked by the question's author. *)
Lemma answers_accept_200 app now user id st :
  status (response (answers_accept app now user id st)) = 200%nat →
  ∃ a q, answers st !! id = Some a ∧ Answer.isDeleted a = false
         ∧ questions st !! Answer.question a = Some q
         ∧ Question.isDeleted q = false ∧ Question.author q = _id user.
Proof.
  unfold answers_accept.
  destruct (answers st !! id) as [a|] eqn:Ha; [|done].
  destruct (Answer.isDeleted a) eqn:Hda; [done|].
  destruct (questions st !! Answer.question a) as [q|] eqn:Hq; [|done].
  destruct (Question.isDeleted q) eqn:Hdq; [done|].
  case_bool_decide as Hau; [done|].
  intros _. exists a, q. by split_and!.
Qed.

(** The answers table after an unaccept, whatever its outcome, holds the
    same notifications. *)
Lemma answers_unaccept_notifications user id st :
  notifications (store (answers_unaccept user id st)) = notifications st.
Proof. unfold answers_unaccept. repeat (case_match; simpl; try done). Qed.

End Acceptance.

(** C1.  In a store whose acceptance flags are coherent (every store the
    API reaches is), let A1 and A2 be two different answers of question Q,
    none of the three soft-deleted.  When Q's author accepts A1 and then
    A2, both requests succeed, and afterwards A2 is the one answer of Q
    with [isAccepted = true], Q has [acceptedAnswer = A2] and
    [isAnswered = true], and A1 has [isAccepted = false] with [acceptedAt]
    and [acceptedBy] cleared. *)
Theorem accept_then_accept app1 now1 app2 now2 user st qid q i1 a1 i2 a2 :
  accept_coherent st →
  questions st !! qid = Some q → Question.isDeleted q = false →
  Question.author q = _id user →
  answers st !! i1 = Some a1 → Answer.question a1 = qid → Answer.isDeleted a1 = false →
  answers st !! i2 = Some a2 → Answer.question a2 = qid → Answer.isDeleted a2 = false →
  i1 ≠ i2 →
  let o1 := answers_accept app1 now1 user i1 st in
  let o2 := answers_accept app2 now2 user i2 (store o1) in
  status (response o1) = 200%nat ∧ status (response o2) = 200%nat
  ∧ (∀ i a, answers (store o2) !! i = Some a → Answer.question a = qid →
       (Answer.isAccepted a = true ↔ i = i2))
  ∧ size (acceptedAnswers (store o2) qid) = 1%nat
  ∧ (∃ a2', answers (store o2) !! i2 = Some a2'
            ∧ Answer.isAccepted a2' = true
            ∧ Answer.acceptedAt a2' = Some now2
            ∧ Answer.acceptedBy a2' = Some (_id user))
  ∧ (∃ q', questions (store o2) !! qid = Some q'
           ∧ Question.acceptedAnswer q' = Some i2
           ∧ Question.isAnswered q' = true)
  ∧ (∃ a1', answers (store o2) !! i1 = Some a1'
            ∧ Answer.isAccepted a1' = false
            ∧ Answer.acceptedAt a1' = None
            ∧ Answer.acceptedBy a1' = None).
Proof.
  intros Hc Hq Hdq Hau H1 Hq1 Hd1 H2 Hq2 Hd2 Hne o1 o2.
  (* first accept *)
  rewrite <- Hq1 in Hq.
  destruct (answers_accept_success app1 now1 user i1 st a1 q H1 Hd1 Hq Hdq Hau)
    as (Hs1 & Ha1 & Hqs1 & _ & _).
  fold o1 in Hs1, Ha1, Hqs1.
  assert (Hc1 : accept_coherent (store o1)) by by apply answers_accept_coherent.
  assert (H1' : answers (store o1) !! i1 = Some (Answer.acceptAnswer a1 (_id user) now1)).
  { rewrite Ha1. apply lookup_insert_eq. }
  assert (H2' : ∃ a2x, answers (store o1) !! i2 = Some a2x
                       ∧ Answer.question a2x = qid ∧ Answer.isDeleted a2x = false).
  { rewrite Ha1, lookup_insert_ne by done.
    destruct (Question.acceptedAnswer q) as [prev|]; [|by exists a2].
    destruct (answers st !! prev) as [p|] eqn:Hp; [|by exists a2].
    destruct (decide (prev = i2)) as [->|Hnp].
    - rewrite lookup_insert_eq. exists (Answer.unacceptAnswer p).
      rewrite H2 in Hp. injection Hp as <-. done.
    - rewrite lookup_insert_ne by done. by exists a2. }
  destruct H2' as (a2x & H2x & Hq2x & Hd2x).
  assert (Hq1' : questions (store o1) !! Answer.question a2x
                 = Some (Question.set_accepted q true (Some i1))).
  { rewrite Hqs1, Hq2x, <- Hq1. apply lookup_insert_eq. }
  (* second accept *)
  destruct (answers_accept_success app2 now2 user i2 (store o1) a2x _
              H2x Hd2x Hq1' Hdq Hau) as (Hs2 & Ha2 & Hqs2 & _ & _).
  fold o2 in Hs2, Ha2, Hqs2. simpl in Ha2. rewrite H1' in Ha2.
  assert (Hc2 : accept_coherent (store o2)) by by apply answers_accept_coherent.
  assert (Hq' : questions (store o2) !! qid
                = Some (Question.set_accepted
                          (Question.set_accepted q true (Some i1)) true (Some i2))).
  { rewrite Hqs2, Hq2x. apply lookup_insert_eq. }
  assert (H2'' : answers (store o2) !! i2
                 = Some (Answer.acceptAnswer a2x (_id user) now2)).
  { rewrite Ha2. apply lookup_insert_eq. }
  assert (Hone : ∀ i a, answers (store o2) !! i = Some a → Answer.question a = qid →
                   (Answer.isAccepted a = true ↔ i = i2)).
  { intros i a Hi Hqa. split.
    - intros Hacc.
      destruct (accept_coherent_lookup _ _ _ Hc2 Hi Hacc) as (q' & Hl & Hacc').
      rewrite Hqa, Hq' in Hl. injection Hl as <-. simpl in Hacc'. congruence.
    - intros ->. rewrite H2'' in Hi. by injection Hi as <-. }
  split_and!; try done.
  - replace (acceptedAnswers (store o2) qid)
      with ({[ i2 := Answer.acceptAnswer a2x (_id user) now2 ]} : gmap ObjectId Answer.t);
      [apply map_size_singleton|].
    apply map_eq. intros i. unfold acceptedAnswers.
    destruct (decide (i = i2)) as [->|Hni].
    + rewrite lookup_singleton_eq. symmetry.
      apply map_lookup_filter_Some. by split.
    + rewrite lookup_singleton_ne by done. symmetry.
      apply map_lookup_filter_None. right. intros a Hi [Hqa Hacc]. simpl in *.
      by apply (Hone i a Hi Hqa) in Hacc.
  - by eexists.
  - by eexists.
  - exists (Answer.unacceptAnswer (Answer.acceptAnswer a1 (_id user) now1)).
    split; [|done]. rewrite Ha2, lookup_insert_ne by done. apply lookup_insert_eq.
Qed.

(** C4.  In a store whose acceptance flags are coherent, an unaccept of
    answer A asked by the author of its question Q, while Q's
    [acceptedAnswer] is not A, is refused with 400 "This answer is not
    accepted" and writes nothing: the store, hence the acceptance fields of
    Q and of A, is the one before.  (A and Q are present and not
    soft-deleted.) *)
Theorem unaccept_not_accepted user id st a q :
  accept_coherent st →
  answers st !! id = Some a → Answer.isDeleted a = false →
  questions st !! Answer.question a = Some q → Question.isDeleted q = false →
  Question.author q = _id user →
  Question.acceptedAnswer q ≠ Some id →
  let o := answers_unaccept user id st in
  response o = {| status := 400; body := message "This answer is not accepted" |}
  ∧ store o = st
  ∧ questions (store o) !! Answer.question a = Some q
  ∧ answers (store o) !! id = Some a.
Proof.
  intros Hc Ha Hda Hq Hdq Hau Hnot. simpl.
  assert (Hf : Answer.isAccepted a = false).
  { destruct (Answer.isAccepted a) eqn:E; [|done].
    destruct (accept_coherent_lookup _ _ _ Hc Ha E) as (q' & Hq' & Hacc).
    congruence. }
  unfold answers_unaccept. rewrite Ha, Hda, Hq, Hdq, Hf.
  rewrite bool_decide_eq_false_2 by (by intros ?). done.
Qed.


(** C5, as amended.  A successful accept of answer A adds exactly one
    notification, of type [answer_accepted], from the requester to A's
    author, unless the requester is A's author, in which case it adds
    none; an unaccept never adds a notification. *)
Theorem accept_notifies app now user id st a :
  answers st !! id = Some a →
  status (response (answers_accept app now user id st)) = 200%nat →
  let o := answers_accept app now user id st in
  (Answer.author a ≠ _id user →
     ∃ n, notifications (store o) = notifications st ++ [n]
          ∧ Notification.recipient n = Answer.author a
          ∧ Notification.sender n = Some (_id user)
          ∧ Notification.type n = Notification.answer_accepted
          ∧ Notification.relatedAnswer n = Some id
          ∧ Notification.relatedQuestion n = Some (Answer.question a))
  ∧ (Answer.author a = _id user → notifications (store o) = notifications st)
  ∧ (∀ user' id', notifications (store (answers_unaccept user' id' st))
                  = notifications st).
Proof.
  intros Ha H200 o.
  destruct (answers_accept_200 _ _ _ _ _ H200) as (a' & q & Ha' & Hda & Hq & Hdq & Hau).
  rewrite Ha in Ha'. injection Ha' as <-.
  destruct (answers_accept_success app now user id st a q Ha Hda Hq Hdq Hau)
    as (_ & _ & _ & _ & Hn).
  fold o in Hn. split_and!.
  - intros Hne. rewrite bool_decide_eq_true_2 in Hn by done.
    eexists. split; [exact Hn|done].
  - intros He. rewrite bool_decide_eq_false_2 in Hn by (by intros ?).
    by rewrite app_nil_r in Hn.
  - intros user' id'. apply answers_unaccept_notifications.
Qed.

(** ** Posting answers *)

Section Posting.

(** The duplicate check finds nothing exactly when the author has no
    live answer on the question. *)
Lemma existingAnswer_None st uid qid :
  findOne (λ a, bool_decide (Answer.question a = qid)
                && bool_decide (Answer.author a = uid)
                && negb (Answer.isDeleted a)) (answers st) = None
  ↔ noLiveAnswer st uid qid.
Proof.
  rewrite findOne_None. unfold noLiveAnswer. split.
  - intros Hn i a Hi Hq Hu. specialize (Hn i a Hi).
    rewrite !bool_decide_eq_true_2 in Hn by done. simpl in Hn.
    by apply negb_false_iff in Hn.
  - intros Hl i a Hi.
    destruct (decide (Answer.question a = qid)) as [Hq|Hq];
      [|by rewrite (bool_decide_eq_false_2 _ Hq)].
    destruct (decide (Answer.author a = uid)) as [Hu|Hu];
      [|by rewrite (bool_decide_eq_false_2 _ Hu), andb_false_r].
    by rewrite (Hl i a Hi Hq Hu), andb_false_r.
Qed.

(** A valid post on a live question by an author without a live answer
    there stores the new answer under a fresh id and answers 201 with
    it. *)
Lemma answers_post_created app user content qid st q :
  isLength 20 None content = true →
  questions st !! qid = Some q → Question.isDeleted q = false →
  noLiveAnswer st (_id user) qid →
  let o := answers_post app user content (Some qid) st in
  let aid := freshId (answers st) in
  let a := Answer.create content qid (_id user) in
  response o
  = {| status := 201;
       body := message_answer "Answer posted successfully"
                 {| answer_id := aid; answer := a;
                    answer_voteCount := 0; answer_userVote := None |} |}
  ∧ answers st !! aid = None
  ∧ answers (store o) = <[aid := a]> (answers st)
  ∧ questions (store o) = questions st.
Proof.
  intros Hlen Hq Hdq Hno. simpl. unfold answers_post, answers_post_checks.
  apply existingAnswer_None in Hno.
  unfold validationResult. simpl. rewrite Hlen. simpl.
  rewrite Hq, Hdq, Hno. simpl.
  split_and!; try done; [apply freshId_fresh|..]; by case_bool_decide.
Qed.

(** The post is refused, with nothing written, as soon as the author has
    a live answer on the question. *)
Lemma answers_post_refused app user content questionId st i a :
  answers st !! i = Some a → Answer.isDeleted a = false →
  Answer.author a = _id user → questionId = Some (Answer.question a) →
  let o := answers_post app user content questionId st in
  store o = st
  ∧ (status (response o) = 400%nat ∨ status (response o) = 404%nat).
Proof.
  intros Hi Hd Hu ->. simpl. unfold answers_post.
  destruct (validationResult _) as [|e errs]; [|by auto].
  destruct (questions st !! Answer.question a) as [q|]; [|by auto].
  destruct (Question.isDeleted q); [by auto|].
  edestruct (findOne_is_Some
               (λ x, bool_decide (Answer.question x = Answer.question a)
                     && bool_decide (Answer.author x = _id user)
                     && negb (Answer.isDeleted x)) (answers st) i a Hi)
    as [[j b] ->]; [|by auto].
  by rewrite !bool_decide_eq_true_2, Hd.
Qed.

End Posting.

(** C6.  On a live question Q, in a store where no author has two live
    answers on one question (every store the API reaches is such): if [u]
    has a live answer on Q, [POST /answers] by [u] for Q answers 400 (the
    message is "You have already answered this question" when the body is
    valid), writes nothing, and [u] still has exactly one live answer on Q;
    if [u] has no answer on Q and the body is valid, it answers 201 with
    the created answer, which is stored. *)
Theorem post_answer_once app user content qid st q :
  single_answer st →
  questions st !! qid = Some q → Question.isDeleted q = false →
  let o := answers_post app user content (Some qid) st in
  ((∃ i a, answers st !! i = Some a ∧ Answer.question a = qid
           ∧ Answer.author a = _id user ∧ Answer.isDeleted a = false) →
     status (response o) = 400%nat
     ∧ (isLength 20 None content = true →
          body (response o) = message "You have already answered this question")
     ∧ store o = st
     ∧ size (liveAnswers (store o) (_id user) qid) = 1%nat)
  ∧ ((∀ i a, answers st !! i = Some a →
        ¬ (Answer.question a = qid ∧ Answer.author a = _id user)) →
     isLength 20 None content = true →
     let aid := freshId (answers st) in
     let a := Answer.create content qid (_id user) in
     response o
     = {| status := 201;
          body := message_answer "Answer posted successfully"
                    {| answer_id := aid; answer := a;
                       answer_voteCount := 0; answer_userVote := None |} |}
     ∧ answers st !! aid = None
     ∧ answers (store o) = <[aid := a]> (answers st)).
Proof.
  intros Hs Hq Hdq o. split.
  - intros (i & a & Hi & Hqa & Hu & Hd).
    destruct (answers_post_refused app user content (Some qid) st i a Hi Hd Hu)
      as [Hst Hcode]; [by rewrite Hqa|]. fold o in Hst, Hcode.
    assert (Hbody : isLength 20 None content = true →
              response o = {| status := 400;
                              body := message "You have already answered this question" |}).
    { intros Hlen. unfold o, answers_post, answers_post_checks, validationResult.
      simpl. rewrite Hlen. simpl. rewrite Hq, Hdq.
      edestruct (findOne_is_Some
                   (λ x, bool_decide (Answer.question x = qid)
                         && bool_decide (Answer.author x = _id user)
                         && negb (Answer.isDeleted x)) (answers st) i a Hi)
        as [[j b] ->]; [|done].
      by rewrite !bool_decide_eq_true_2, Hd. }
    split_and!.
    + destruct (isLength 20 None content) eqn:Hlen.
      * by rewrite (Hbody eq_refl).
      * unfold o, answers_post, answers_post_checks, validationResult. simpl.
        by rewrite Hlen.
    + intros Hlen. by rewrite Hbody.
    + done.
    + rewrite Hst.
      replace (liveAnswers st (_id user) qid)
        with ({[ i := a ]} : gmap ObjectId Answer.t); [apply map_size_singleton|].
      apply map_eq. intros j. unfold liveAnswers.
      destruct (decide (j = i)) as [->|Hne].
      * rewrite lookup_singleton_eq. symmetry. by apply map_lookup_filter_Some.
      * rewrite lookup_singleton_ne by done. symmetry.
        apply map_lookup_filter_None. right. intros b Hj (Hqb & Hub & Hdb).
        simpl in *. apply Hne.
        apply (single_answer_lookup st j i b a); auto; congruence.
  - intros Hnone Hlen aid a.
    destruct (answers_post_created app user content qid st q Hlen Hq Hdq)
      as (Hr & Hf & Ha & _); [|done].
    intros i x Hi Hqx Hux. by destruct (Hnone i x Hi).
Qed.

(** C10.  When every answer of [u] on the live question Q is soft-deleted,
    the duplicate check lets [u] answer Q again: a valid [POST /answers]
    answers 201 and stores the new answer under a fresh id, next to the
    soft-deleted ones, which are left as they were. *)
Theorem post_answer_after_delete app user content qid st q :
  isLength 20 None content = true →
  questions st !! qid = Some q → Question.isDeleted q = false →
  (∀ i a, answers st !! i = Some a →
     Answer.question a = qid → Answer.author a = _id user →
     Answer.isDeleted a = true) →
  let o := answers_post app user content (Some qid) st in
  let aid := freshId (answers st) in
  let a := Answer.create content qid (_id user) in
  response o
  = {| status := 201;
       body := message_answer "Answer posted successfully"
                 {| answer_id := aid; answer := a;
                    answer_voteCount := 0; answer_userVote := None |} |}
  ∧ answers (store o) !! aid = Some a
  ∧ (∀ i x, answers st !! i = Some x → answers (store o) !! i = Some x).
Proof.
  intros Hlen Hq Hdq Hdel o aid a.
  destruct (answers_post_created app user content qid st q Hlen Hq Hdq Hdel)
    as (Hr & Hf & Ha & _).
  fold o aid a in Hr, Hf, Ha. split_and!; [done|..].
  - rewrite Ha. apply lookup_insert_eq.
  - intros i x Hi. rewrite Ha. rewrite lookup_insert_ne; [done|]. congruence.
Qed.

(** ** Access checks, moderation and pagination *)

Section AccessAndPaging.

Context (toLowerCase trim : string → string)
        (JSON_stringify : string → string → list string → string)
        (textSearch : string → Question.t → bool).

(** C7.  A caller who is neither the author of question Q nor an admin
    gets 403 from [PUT /questions/:id] (when the body passes validation)
    and from [DELETE /questions/:id], Q being present and not
    soft-deleted; and whatever the body and the state of Q, neither
    request writes anything: the store, and Q in it, is unchanged. *)
Theorem question_edit_forbidden now user id title description tags editReason
    reason st q :
  questions st !! id = Some q →
  Question.author q ≠ _id user → role user ≠ User.admin →
  let put := questions_put toLowerCase trim JSON_stringify now user id title
               description tags editReason st in
  let del := questions_delete now user id reason st in
  (store put = st ∧ questions (store put) !! id = Some q)
  ∧ (store del = st ∧ questions (store del) !! id = Some q)
  ∧ (Question.isDeleted q = false →
       response del
       = {| status := 403;
            body := message "Not authorized to delete this question" |}
       ∧ (validationResult (questions_put_checks title description tags) = [] →
            response put
            = {| status := 403;
                 body := message "Not authorized to edit this question" |})).
Proof.
  intros Hq Hau Hrole put del.
  assert (Hput : store put = st).
  { unfold put, questions_put.
    destruct (validationResult _); [|done]. rewrite Hq.
    destruct (Question.isDeleted q); [done|].
    by rewrite !bool_decide_eq_true_2. }
  assert (Hdel : store del = st).
  { unfold del, questions_delete. rewrite Hq.
    destruct (Question.isDeleted q); [done|].
    by rewrite !bool_decide_eq_true_2. }
  split_and!; try done; try (by rewrite ?Hput, ?Hdel).
  intros Hd. split.
  - unfold del, questions_delete. rewrite Hq, Hd.
    by rewrite !bool_decide_eq_true_2.
  - intros Hv. unfold put, questions_put. rewrite Hv, Hq, Hd.
    by rewrite !bool_decide_eq_true_2.
Qed.

(** C8.  [PUT /users/:id/ban], behind [requireAdmin]: 400 when the reason
    is missing or empty; otherwise 404 when the target does not exist,
    403 when the target is an admin, and in these three cases nothing is
    written; otherwise the target gets [isBanned = true] and [banReason]
    set to the given reason, and nothing else changes. *)
Theorem users_ban_cases id reason st :
  let o := users_ban id reason st in
  (truthy reason = None →
     response o = {| status := 400; body := errors ["Ban reason is required"] |}
     ∧ store o = st)
  ∧ (∀ r, reason = Some r → r ≠ "" →
       (users st !! id = None →
          response o = {| status := 404; body := message "User not found" |}
          ∧ store o = st)
       ∧ (∀ u, users st !! id = Some u → User.role u = User.admin →
            response o = {| status := 403; body := message "Cannot ban admin users" |}
            ∧ store o = st
            ∧ users (store o) !! id = Some u)
       ∧ (∀ u, users st !! id = Some u → User.role u ≠ User.admin →
            response o = {| status := 200; body := message "User banned successfully" |}
            ∧ store o = set_users st (<[id := User.set_ban u true r]> (users st))
            ∧ ∃ u', users (store o) !! id = Some u'
                    ∧ User.isBanned u' = true ∧ User.banReason u' = r
                    ∧ User.role u' = User.role u
                    ∧ User.username u' = User.username u)).
Proof.
  intros o. split.
  - intros Hr. unfold o, users_ban, users_ban_checks, validationResult. simpl.
    by rewrite Hr.
  - intros r -> Hr.
    assert (Hv : validationResult (users_ban_checks (Some r)) = []).
    { unfold users_ban_checks, validationResult. simpl.
      by rewrite (bool_decide_eq_false_2 _ Hr). }
    unfold o, users_ban. rewrite Hv. split_and!.
    + by intros ->.
    + intros u Hu Hadm. rewrite Hu. by rewrite bool_decide_eq_true_2.
    + intros u Hu Hadm. rewrite Hu. rewrite bool_decide_eq_false_2 by done.
      split_and!; try done. simpl.
      exists (User.set_ban u true r). by rewrite lookup_insert_eq.
Qed.

Lemma Math_ceil_div_spec (n l : Z) : 0 < l → is_ceil_div n l (Math_ceil_div n l).
Proof.
  intros Hl. unfold is_ceil_div, Math_ceil_div, Qceiling, Qfloor, Qdiv.
  destruct l as [|p|p]; try lia.
  unfold Qinv, Qmult, Qopp, inject_Z. simpl.
  rewrite Z.mul_1_r, Pos.mul_1_l.
  pose proof (Z.div_mod (- n) (Z.pos p) ltac:(lia)) as Hdm.
  pose proof (Z.mod_pos_bound (- n) (Z.pos p) ltac:(lia)) as Hb.
  nia.
Qed.

Lemma validationResult_nil_all checks :
  validationResult checks = [] → Forall (λ c, c.1 = true) checks.
Proof.
  unfold validationResult. induction checks as [|[b m] cs IH]; [by constructor|].
  simpl. destruct b; simpl; [|done].
  intros H. constructor; [done|by apply IH].
Qed.

(** C9.  A [GET /questions] request that passes validation is answered
    200 with a pagination object where, [p] and [l] being the page and
    the limit the route works with and [n] the number of questions
    matching the filter: [currentPage = p], [totalQuestions = n],
    [totalPages] is the ceiling of [n / l], [hasNextPage] holds exactly
    when [p < totalPages] and [hasPrevPage] exactly when [p > 1]. *)
Theorem questions_get_pagination query st :
  validationResult (questions_get_checks query) = [] →
  let p := listPage query in
  let l := listLimit query in
  let n := countDocuments (matchesFilter textSearch (listFilter toLowerCase query))
             (questions st) in
  1 ≤ p ∧ 1 ≤ l ≤ 50 ∧ 0 ≤ n
  ∧ ∃ pg, response (questions_get toLowerCase textSearch query st)
          = {| status := 200; body := questions_page pg |}
     ∧ currentPage pg = p
     ∧ totalQuestions pg = n
     ∧ is_ceil_div n l (totalPages pg)
     ∧ (hasNextPage pg = true ↔ p < totalPages pg)
     ∧ (hasPrevPage pg = true ↔ p > 1).
Proof.
  intros Hv p l n.
  pose proof (validationResult_nil_all _ Hv) as Hall.
  unfold questions_get_checks in Hall.
  apply Forall_cons in Hall as [Hp Hall]. apply Forall_cons in Hall as [Hlim _].
  simpl in Hp, Hlim.
  assert (Hp1 : 1 ≤ p).
  { unfold p, listPage, parseIntOr.
    destruct (ListQuery.page query) as [[z|s]|]; simpl in Hp; try done.
    apply andb_true_iff in Hp as [Hp _]. apply Z.leb_le in Hp.
    destruct (Z.eqb_spec z 0); lia. }
  assert (Hl1 : 1 ≤ l ≤ 50).
  { unfold l, listLimit, parseIntOr.
    destruct (ListQuery.limit query) as [[z|s]|]; simpl in Hlim; try done.
    apply andb_true_iff in Hlim as [H1 H2].
    apply Z.leb_le in H1. apply Z.leb_le in H2.
    destruct (Z.eqb_spec z 0); lia. }
  split_and!; try done; try lia.
  { unfold n, countDocuments. lia. }
  exists (pagination p l n). split_and!.
  - unfold questions_get. by rewrite Hv.
  - done.
  - done.
  - apply Math_ceil_div_spec. lia.
  - simpl. apply Z.ltb_lt.
  - simpl. rewrite Z.ltb_lt. lia.
Qed.

End AccessAndPaging.

(** ** The properties on the sample forum *)

(** C1 on the sample forum: Alice accepts Bob's answer, then Carol's. *)
Lemma accept_then_accept_witness :
  let o2 := answers_accept Sample.app 20 Sample.alice 2 Sample.accepted in
  size (acceptedAnswers (store o2) 1) = 1%nat
  ∧ (∃ q', questions (store o2) !! 1%nat = Some q'
           ∧ Question.acceptedAnswer q' = Some 2%nat
           ∧ Question.isAnswered q' = true).
Proof.
  destruct (accept_then_accept Sample.app 10 Sample.app 20 Sample.alice
              Sample.posted 1 Sample.q1 1 Sample.a1 2 Sample.a2)
    as (_ & _ & _ & Hsize & _ & Hq & _).
  - apply (bool_decide_unpack _). by vm_compute.
  - vm_compute. reflexivity.
  - reflexivity.
  - reflexivity.
  - vm_compute. reflexivity.
  - reflexivity.
  - reflexivity.
  - vm_compute. reflexivity.
  - reflexivity.
  - reflexivity.
  - lia.
  - split; assumption.
Defined.

(** C2 on an answer: the fresh record, then a vote set and removed. *)
Lemma vote_ledger_invariant_witness :
  answer_ledger_ok Sample.a1
  ∧ answer_ledger_ok (Answer.addVote Sample.a1 7 "upvote" 5)
  ∧ answer_ledger_ok (Answer.removeVote (Answer.addVote Sample.a1 7 "upvote" 5) 7).
Proof.
  destruct vote_ledger_invariant as (_ & (Hnew & Hadd & Hrem) & _).
  assert (H0 : answer_ledger_ok Sample.a1) by apply Hnew.
  split_and!; [exact H0 | apply Hadd, H0 | apply Hrem, Hadd, H0].
Defined.

(** C3 on the sample ledger: voter 8, who had downvoted, upvotes. *)
Lemma addVote_replaces_witness :
  isDirection "upvote"
  ∧ Votes.entries 8 (Votes.upvotes (Votes.addVote Sample.ledger 8 "upvote" 9)) = 1%nat
  ∧ Votes.entries 8 (Votes.downvotes (Votes.addVote Sample.ledger 8 "upvote" 9)) = 0%nat.
Proof.
  assert (Hd : isDirection "upvote") by (left; reflexivity).
  destruct (addVote_replaces Sample.ledger 8 "upvote" 9 Hd) as (_ & _ & Hu & Hw & _).
  split_and!; [exact Hd | exact Hu | exact Hw].
Defined.

(** C4 on the sample forum: Bob's answer is the accepted one and Alice
    asks to unaccept Carol's. *)
Lemma unaccept_not_accepted_witness :
  response (answers_unaccept Sample.alice 2 Sample.accepted)
  = {| status := 400; body := message "This answer is not accepted" |}
  ∧ store (answers_unaccept Sample.alice 2 Sample.accepted) = Sample.accepted.
Proof.
  destruct (unaccept_not_accepted Sample.alice 2 Sample.accepted Sample.a2
              (Question.set_accepted Sample.q1 true (Some 1%nat)))
    as (Hr & Hs & _).
  - apply (bool_decide_unpack _). by vm_compute.
  - vm_compute. reflexivity.
  - reflexivity.
  - vm_compute. reflexivity.
  - reflexivity.
  - reflexivity.
  - simpl. intros [=].
  - split; assumption.
Defined.

(** C5, as amended, on the sample forum: Alice accepts Bob's answer. *)
Lemma accept_notifies_witness :
  ∃ n, notifications Sample.accepted = notifications Sample.posted ++ [n]
       ∧ Notification.recipient n = 2%nat
       ∧ Notification.type n = Notification.answer_accepted.
Proof.
  destruct (accept_notifies Sample.app 10 Sample.alice 1 Sample.posted Sample.a1)
    as (Hn & _ & _).
  - vm_compute. reflexivity.
  - vm_compute. reflexivity.
  - destruct Hn as (n & Hn & Hrec & _ & Hty & _).
    + simpl. lia.
    + exists n. split_and!; [exact Hn | exact Hrec | exact Hty].
Defined.

(** C5 as stated fails for unaccept: on the sample forum Alice unaccepts
    Bob's accepted answer, the request succeeds, and no notification is
    added. *)
Lemma unaccept_sends_nothing :
  let o := answers_unaccept Sample.alice 1 Sample.accepted in
  status (response o) = 200%nat
  ∧ (∃ a, answers Sample.accepted !! 1%nat = Some a ∧ Answer.author a ≠ _id Sample.alice)
  ∧ notifications (store o) = notifications Sample.accepted
  ∧ ¬ claimed_unaccept_notifies.
Proof.
  assert (Ha : answers Sample.accepted !! 1%nat
               = Some (Answer.acceptAnswer Sample.a1 1 10)).
  { vm_compute. reflexivity. }
  assert (Hs : status (response (answers_unaccept Sample.alice 1 Sample.accepted))
               = 200%nat).
  { vm_compute. reflexivity. }
  simpl. split_and!.
  - exact Hs.
  - eexists. split; [exact Ha|]. simpl. lia.
  - apply answers_unaccept_notifications.
  - intros Hclaim.
    destruct (Hclaim Sample.alice 1%nat Sample.accepted _ Ha Hs) as (n & Hn & _).
    + simpl. lia.
    + rewrite answers_unaccept_notifications in Hn.
      apply (f_equal length) in Hn. rewrite length_app in Hn. simpl in Hn. lia.
Qed.

(** C6 on the sample forum: Bob, who has answered question 1, posts
    again; and a newcomer (user 4) posts a first answer. *)
Lemma post_answer_once_witness :
  status (response (answers_post Sample.app Sample.bob
                      "Another answer, long enough again" (Some 1%nat) Sample.posted))
  = 400%nat
  ∧ size (liveAnswers Sample.posted 2 1) = 1%nat
  ∧ status (response (answers_post Sample.app
                        {| _id := 4%nat; role := User.user; username := "dave" |}
                        "Margin auto also works, in some cases" (Some 1%nat)
                        Sample.posted))
    = 201%nat.
Proof.
  assert (Hs : single_answer Sample.posted).
  { apply (bool_decide_unpack _). by vm_compute. }
  assert (Hq : questions Sample.posted !! 1%nat = Some Sample.q1).
  { vm_compute. reflexivity. }
  destruct (post_answer_once Sample.app Sample.bob
              "Another answer, long enough again" 1 Sample.posted Sample.q1
              Hs Hq eq_refl) as [Hdup _].
  destruct (post_answer_once Sample.app
              {| _id := 4%nat; role := User.user; username := "dave" |}
              "Margin auto also works, in some cases" 1 Sample.posted Sample.q1
              Hs Hq eq_refl) as [_ Hnew].
  destruct Hdup as (H400 & _ & Hst & Hone).
  { exists 1%nat, Sample.a1. split_and!; vm_compute; reflexivity. }
  destruct Hnew as (H201 & _).
  { change (map_Forall (λ (_ : nat) a,
              ¬ (Answer.question a = 1%nat ∧ Answer.author a = 4%nat))
              (answers Sample.posted)).
    apply (bool_decide_unpack _). by vm_compute. }
  { reflexivity. }
  split_and!.
  - exact H400.
  - by rewrite Hst in Hone.
  - by rewrite H201.
Defined.

(** C7 on the sample forum: Bob tries to edit and to delete Alice's
    question. *)
Lemma question_edit_forbidden_witness :
  status (response (questions_put Sample.same Sample.same Sample.stringify 5
                      Sample.bob 1 (Some "A brand new title") None None None
                      Sample.posted)) = 403%nat
  ∧ status (response (questions_delete 5 Sample.bob 1 None Sample.posted)) = 403%nat
  ∧ store (questions_delete 5 Sample.bob 1 None Sample.posted) = Sample.posted.
Proof.
  destruct (question_edit_forbidden Sample.same Sample.same Sample.stringify 5
              Sample.bob 1 (Some "A brand new title") None None None None
              Sample.posted Sample.q1) as (_ & (Hdel & _) & H403).
  - vm_compute. reflexivity.
  - simpl. lia.
  - simpl. discriminate.
  - destruct (H403 eq_refl) as (Hd & Hp).
    split_and!; [by rewrite Hp | by rewrite Hd | exact Hdel].
Defined.

(** C8 on the sample user table: a member is banned, an admin is not, and
    an empty reason is refused. *)
Lemma users_ban_cases_witness :
  (∃ u', users (store (users_ban 5 (Some "spam") Sample.registered)) !! 5%nat = Some u'
         ∧ User.isBanned u' = true ∧ User.banReason u' = "spam")
  ∧ status (response (users_ban 6 (Some "spam") Sample.registered)) = 403%nat
  ∧ status (response (users_ban 5 (Some "") Sample.registered)) = 400%nat.
Proof.
  destruct (users_ban_cases 5 (Some "spam") Sample.registered) as (_ & Hm).
  destruct (Hm "spam" eq_refl ltac:(discriminate)) as (_ & _ & Hban).
  destruct (Hban Sample.member) as (_ & _ & u' & Hu' & Hb & Hr & _).
  { vm_compute. reflexivity. }
  { simpl. discriminate. }
  destruct (users_ban_cases 6 (Some "spam") Sample.registered) as (_ & Ha).
  destruct (Ha "spam" eq_refl ltac:(discriminate)) as (_ & Hadm & _).
  destruct (Hadm (User.set_role Sample.member User.admin)) as (H403 & _).
  { vm_compute. reflexivity. }
  { reflexivity. }
  destruct (users_ban_cases 5 (Some "") Sample.registered) as (He & _).
  destruct (He eq_refl) as (H400 & _).
  split_and!.
  - exists u'. split_and!; [exact Hu' | exact Hb | exact Hr].
  - by rewrite H403.
  - by rewrite H400.
Defined.

(** C9 on the sample forum: page 2 at 3 per page of a single question. *)
Lemma questions_get_pagination_witness :
  response (questions_get Sample.same Sample.noSearch Sample.page2 Sample.posted)
  = {| status := 200;
       body := questions_page
                 {| currentPage := 2; totalPages := 1; totalQuestions := 1;
                    hasNextPage := false; hasPrevPage := true |} |}.
Proof.
  destruct (questions_get_pagination Sample.same Sample.noSearch Sample.page2
              Sample.posted eq_refl)
    as (_ & _ & _ & pg & Hr & Hp & Hn & Hceil & Hnext & Hprev).
  rewrite Hr. do 2 f_equal.
  change (listPage Sample.page2) with 2 in *.
  change (listLimit Sample.page2) with 3 in *.
  replace (countDocuments _ (questions Sample.posted)) with 1 in *
    by (vm_compute; reflexivity).
  destruct pg as [cur tot cnt nxt prv]. simpl in *.
  unfold is_ceil_div in Hceil.
  assert (tot = 1) as -> by lia.
  assert (nxt = false) as ->.
  { destruct nxt; [|done]. destruct Hnext as [Hnext _]. specialize (Hnext eq_refl). lia. }
  assert (prv = true) as ->.
  { destruct Hprev as [_ Hprev]. apply Hprev. lia. }
  by rewrite Hp, Hn.
Defined.

(** C10 on the sample forum: Bob has soft-deleted his answer and answers
    again. *)
Lemma post_answer_after_delete_witness :
  (∃ a, answers Sample.deleted !! 1%nat = Some a
        ∧ Answer.author a = 2%nat ∧ Answer.isDeleted a = true)
  ∧ status (response (answers_post Sample.app Sample.bob
                        "A second answer, long enough to pass" (Some 1%nat)
                        Sample.deleted)) = 201%nat.
Proof.
  split.
  - eexists. split; [vm_compute; reflexivity|]. split; reflexivity.
  - destruct (post_answer_after_delete Sample.app Sample.bob
                "A second answer, long enough to pass" 1 Sample.deleted Sample.q1)
      as (Hr & _).
    + reflexivity.
    + vm_compute. reflexivity.
    + reflexivity.
    + change (map_Forall (λ (_ : nat) a,
                Answer.question a = 1%nat → Answer.author a = 2%nat →
                Answer.isDeleted a = true) (answers Sample.deleted)).
      apply (bool_decide_unpack _). by vm_compute.
    + by rewrite Hr.
Defined.

(** The sample stores are stores the API reaches. *)
Lemma sample_reachable :
  reachable Sample.same Sample.same Sample.stringify Sample.noSearch Sample.posted
  ∧ reachable Sample.same Sample.same Sample.stringify Sample.noSearch Sample.accepted
  ∧ reachable Sample.same Sample.same Sample.stringify Sample.noSearch Sample.deleted.
Proof.
  assert (Hp : reachable Sample.same Sample.same Sample.stringify Sample.noSearch
                 Sample.posted).
  { apply (reachable_handle _ _ _ _ Sample.app 0
             (POST_answers Sample.carol "Use a grid container and place-items"
                (Some 1%nat))).
    apply (reachable_handle _ _ _ _ Sample.app 0
             (POST_answers Sample.bob "Use a flex container and justify-content"
                (Some 1%nat))).
    apply (reachable_handle _ _ _ _ Sample.app 0
             (POST_questions Sample.alice "How to center a div"
                "I want to center a div with css" (Some ["css"; "html"]))).
    apply reachable_initial. }
  split_and!.
  - exact Hp.
  - by apply (reachable_handle _ _ _ _ Sample.app 10
                (POST_answers_id_accept Sample.alice 1%nat)).
  - by apply (reachable_handle _ _ _ _ Sample.app 30
                (DELETE_answers_id Sample.bob 1%nat None)).
Qed.

(** ** More on the vote ledger *)

Section LedgerMore.

Import Votes.

Lemma existsb_isBy_filter_own u l :
  existsb (isBy u) (List.filter (notBy u) l) = false.
Proof.
  induction l as [|x l IH]; [done|]. simpl.
  destruct (notBy u x) eqn:E; [|done]. simpl.
  unfold notBy in E. apply negb_true_iff in E. by rewrite E.
Qed.

Lemma isBy_other u u' x : u' ≠ u → isBy u' x = true → notBy u x = true.
Proof.
  unfold notBy, isBy. intros Hne H. apply bool_decide_eq_true in H.
  apply negb_true_iff, bool_decide_eq_false. congruence.
Qed.

Lemma filter_isBy_filter_other u u' l :
  u' ≠ u →
  List.filter (isBy u') (List.filter (notBy u) l) = List.filter (isBy u') l.
Proof.
  intros Hne. induction l as [|x l IH]; [done|]. simpl.
  destruct (isBy u' x) eqn:E.
  - rewrite (isBy_other u u' x Hne E). simpl. by rewrite E, IH.
  - destruct (notBy u x); simpl; by rewrite ?E, IH.
Qed.

Lemma filter_isBy_own_entry u u' now :
  u' ≠ u → List.filter (isBy u') [{| user := u; createdAt := now |}] = [].
Proof.
  intros Hne. simpl. unfold isBy. simpl.
  by rewrite bool_decide_eq_false_2 by congruence.
Qed.

Lemma existsb_filter_isBy u l : existsb (isBy u) l = false ↔ entries u l = 0%nat.
Proof.
  unfold entries. induction l as [|x l IH]; [done|]. simpl.
  destruct (isBy u x); simpl; [split; [done|lia]|done].
Qed.

Lemma existsb_as_filter u l :
  existsb (isBy u) l = negb (Nat.eqb (length (List.filter (isBy u) l)) 0).
Proof.
  induction l as [|x l IH]; [done|]. simpl.
  destruct (isBy u x); simpl; done.
Qed.

Lemma length_filter_notBy u l :
  length l = (length (List.filter (notBy u) l) + entries u l)%nat.
Proof.
  unfold entries, notBy. induction l as [|x l IH]; [done|]. simpl.
  destruct (isBy u x); simpl; lia.
Qed.

Lemma hasUserVoted_None v u :
  hasUserVoted v u = None
  ↔ entries u (upvotes v) = 0%nat ∧ entries u (downvotes v) = 0%nat.
Proof.
  unfold hasUserVoted. rewrite <- !existsb_filter_isBy.
  destruct (existsb (isBy u) (upvotes v)), (existsb (isBy u) (downvotes v));
    intuition congruence.
Qed.

End LedgerMore.

(** X1.  The vote a voter has set is the vote [hasUserVoted] reports for
    that voter: the direction after [addVote], nothing after [removeVote];
    and what it reports for any other voter is not changed by either. *)
Theorem hasUserVoted_after_vote (v : Votes.t) (u : ObjectId) (d : string)
    (now : Date) :
  isDirection d →
  Votes.hasUserVoted (Votes.addVote v u d now) u = Some d
  ∧ Votes.hasUserVoted (Votes.removeVote v u) u = None
  ∧ (∀ u' t, u' ≠ u →
       Votes.hasUserVoted (Votes.addVote v u t now) u' = Votes.hasUserVoted v u'
       ∧ Votes.hasUserVoted (Votes.removeVote v u) u' = Votes.hasUserVoted v u').
Proof.
  intros Hd. split_and!.
  - unfold Votes.hasUserVoted, Votes.addVote.
    destruct Hd as [-> | ->]; simpl;
      rewrite ?existsb_app, ?existsb_isBy_filter_own; simpl;
      unfold Votes.isBy; simpl; by rewrite bool_decide_eq_true_2.
  - unfold Votes.hasUserVoted, Votes.removeVote. simpl.
    by rewrite !existsb_isBy_filter_own.
  - intros u' t Hne.
    assert (Hf : ∀ l, existsb (Votes.isBy u') (List.filter (Votes.notBy u) l)
                      = existsb (Votes.isBy u') l).
    { intros l. by rewrite !existsb_as_filter, filter_isBy_filter_other. }
    assert (Hown : ∀ l, existsb (Votes.isBy u')
                          (l ++ [{| Votes.user := u; Votes.createdAt := now |}])
                        = existsb (Votes.isBy u') l).
    { intros l. rewrite existsb_app. simpl. unfold Votes.isBy at 2. simpl.
      rewrite bool_decide_eq_false_2 by congruence. by rewrite !orb_false_r. }
    unfold Votes.hasUserVoted, Votes.addVote, Votes.removeVote.
    repeat case_bool_decide; simpl; by rewrite ?Hown, !Hf.
Qed.

(** X2.  How a vote moves the count: removing the votes of a voter takes
    the voter's upvote entries off and gives the downvote entries back;
    an upvote adds one to that and a downvote takes one off.  So a first
    vote moves the count by one, and a switch from a single downvote to an
    upvote by two. *)
Theorem voteCount_after_vote (v : Votes.t) (u : ObjectId) (now : Date) :
  let ups := Z.of_nat (Votes.entries u (Votes.upvotes v)) in
  let downs := Z.of_nat (Votes.entries u (Votes.downvotes v)) in
  Votes.voteCount (Votes.removeVote v u) = Votes.voteCount v - ups + downs
  ∧ Votes.voteCount (Votes.addVote v u "upvote" now)
    = Votes.voteCount v - ups + downs + 1
  ∧ Votes.voteCount (Votes.addVote v u "downvote" now)
    = Votes.voteCount v - ups + downs - 1
  ∧ (Votes.hasUserVoted v u = None →
       Votes.voteCount (Votes.addVote v u "upvote" now) = Votes.voteCount v + 1
       ∧ Votes.voteCount (Votes.addVote v u "downvote" now) = Votes.voteCount v - 1
       ∧ Votes.voteCount (Votes.removeVote v u) = Votes.voteCount v)
  ∧ (ups = 0 → downs = 1 →
       Votes.voteCount (Votes.addVote v u "upvote" now) = Votes.voteCount v + 2).
Proof.
  intros ups downs.
  pose proof (length_filter_notBy u (Votes.upvotes v)) as Hu.
  pose proof (length_filter_notBy u (Votes.downvotes v)) as Hd.
  assert (H1 : Votes.voteCount (Votes.removeVote v u)
               = Votes.voteCount v - ups + downs).
  { unfold Votes.voteCount, Votes.removeVote, ups, downs. simpl. lia. }
  assert (H2 : Votes.voteCount (Votes.addVote v u "upvote" now)
               = Votes.voteCount v - ups + downs + 1).
  { unfold Votes.voteCount, Votes.addVote, ups, downs. simpl.
    rewrite length_app. simpl. lia. }
  assert (H3 : Votes.voteCount (Votes.addVote v u "downvote" now)
               = Votes.voteCount v - ups + downs - 1).
  { unfold Votes.voteCount, Votes.addVote, ups, downs. simpl.
    rewrite length_app. simpl. lia. }
  split_and!; try done.
  - intros Hn. apply hasUserVoted_None in Hn as [Hn1 Hn2].
    unfold ups, downs in *. lia.
  - intros E1 E2. lia.
Qed.

(** X3.  [addVote] and [removeVote] of one voter leave the entries of
    every other voter as they were, in both arrays: the same entries, with
    their timestamps, in the same order. *)
Theorem vote_keeps_others (v : Votes.t) (u u' : ObjectId) (voteType : string)
    (now : Date) :
  u' ≠ u →
  let kept l := List.filter (Votes.isBy u') l in
  kept (Votes.upvotes (Votes.addVote v u voteType now)) = kept (Votes.upvotes v)
  ∧ kept (Votes.downvotes (Votes.addVote v u voteType now)) = kept (Votes.downvotes v)
  ∧ kept (Votes.upvotes (Votes.removeVote v u)) = kept (Votes.upvotes v)
  ∧ kept (Votes.downvotes (Votes.removeVote v u)) = kept (Votes.downvotes v).
Proof.
  intros Hne kept. unfold kept, Votes.addVote, Votes.removeVote.
  repeat case_bool_decide; simpl; rewrite ?List.filter_app;
    rewrite ?(filter_isBy_own_entry u u' now Hne), ?app_nil_r;
    by rewrite !filter_isBy_filter_other.
Qed.

(** ** More on the answer routes *)

(** X4.  The vote routes of answers and of questions: on a record that is
    not soft-deleted, any caller (its author included) sets or removes the
    caller's vote with [addVote] or [removeVote]; the record stored differs
    from the old one in its ledger only, and the response reports the vote
    just set and the count of the stored ledger.  A vote type outside
    upvote, downvote and remove is refused with 400 and nothing is
    written. *)
Theorem vote_routes_set_vote now user id voteType st :
  (isVoteType voteType = false →
     status (response (answers_vote now user id voteType st)) = 400%nat
     ∧ store (answers_vote now user id voteType st) = st
     ∧ status (response (questions_vote now user id voteType st)) = 400%nat
     ∧ store (questions_vote now user id voteType st) = st)
  ∧ (isVoteType voteType = true →
     let reported :=
       if bool_decide (voteType = "remove") then None else Some voteType in
     let voted v :=
       if bool_decide (voteType = "remove") then Votes.removeVote v (_id user)
       else Votes.addVote v (_id user) voteType now in
     (∀ a, answers st !! id = Some a → Answer.isDeleted a = false →
        let o := answers_vote now user id voteType st in
        let v' := voted (Answer.votes a) in
        status (response o) = 200%nat
        ∧ store o = set_answers st (<[id := Answer.set_votes a v']> (answers st))
        ∧ responseAnswer (response o)
          = Some {| answer_id := id; answer := Answer.set_votes a v';
                    answer_voteCount := Votes.voteCount v';
                    answer_userVote := reported |}
        ∧ Votes.hasUserVoted v' (_id user) = reported)
     ∧ (∀ q, questions st !! id = Some q → Question.isDeleted q = false →
        let o := questions_vote now user id voteType st in
        let v' := voted (Question.votes q) in
        status (response o) = 200%nat
        ∧ store o = set_questions st (<[id := Question.set_votes q v']> (questions st))
        ∧ responseQuestion (response o)
          = Some {| question_id := id; question := Question.set_votes q v';
                    question_voteCount := Votes.voteCount v';
                    question_userVote := reported |}
        ∧ Votes.hasUserVoted v' (_id user) = reported)).
Proof.
  split.
  - intros Hv. unfold answers_vote, questions_vote, validationResult. simpl.
    by rewrite Hv.
  - intros Hv reported voted.
    assert (Hrep : ∀ v, Votes.hasUserVoted (voted v) (_id user) = reported).
    { intros v. unfold reported, voted. case_bool_decide as Hr.
      - unfold Votes.hasUserVoted, Votes.removeVote. simpl.
        by rewrite !existsb_isBy_filter_own.
      - unfold isVoteType in Hv. rewrite (bool_decide_eq_false_2 _ Hr) in Hv.
        rewrite orb_false_r in Hv. apply orb_true_iff in Hv.
        unfold Votes.hasUserVoted, Votes.addVote.
        destruct Hv as [Hv|Hv]; apply bool_decide_eq_true in Hv; subst; simpl;
          rewrite ?existsb_app, ?existsb_isBy_filter_own; simpl;
          unfold Votes.isBy; simpl; by rewrite bool_decide_eq_true_2. }
    split.
    + intros a Ha Hd o v'.
      unfold o, answers_vote, validationResult. simpl. rewrite Hv. simpl.
      rewrite Ha, Hd. specialize (Hrep (Answer.votes a)).
      unfold answerJson, Answer.hasUserVoted, Answer.removeVote, Answer.addVote.
      unfold v', voted in *.
      case_bool_decide; simpl in *; by rewrite ?Hrep.
    + intros q Hq Hd o v'.
      unfold o, questions_vote, validationResult. simpl. rewrite Hv. simpl.
      rewrite Hq, Hd. specialize (Hrep (Question.votes q)).
      unfold questionJson, Question.hasUserVoted, Question.removeVote,
        Question.addVote.
      unfold v', voted in *.
      case_bool_decide; simpl in *; by rewrite ?Hrep.
Qed.

(** X5.  A caller who is neither the author of an answer nor an admin
    cannot edit or delete it: [PUT /answers/:id] and [DELETE /answers/:id]
    write nothing, and on an answer that is not soft-deleted they answer
    403 (the edit, once its body passes validation). *)
Theorem answer_edit_forbidden now user id content editReason reason st a :
  answers st !! id = Some a →
  Answer.author a ≠ _id user → role user ≠ User.admin →
  let put := answers_put now user id content editReason st in
  let del := answers_delete now user id reason st in
  store put = st ∧ store del = st
  ∧ (Answer.isDeleted a = false →
       response del
       = {| status := 403; body := message "Not authorized to delete this answer" |}
       ∧ (isLength 20 None content = true →
            response put
            = {| status := 403;
                 body := message "Not authorized to edit this answer" |})).
Proof.
  intros Ha Hau Hrole put del.
  unfold put, del, answers_put, answers_delete, validationResult. simpl.
  rewrite Ha. rewrite !bool_decide_eq_true_2 by done. simpl.
  destruct (isLength 20 None content), (Answer.isDeleted a); simpl;
    split_and!; try done; intros; by split.
Qed.

(** X6.  An edit of a live answer by its author or by an admin, with a
    valid body: when the content is the stored one, 400 "No changes to
    update" and nothing is written; otherwise the content is replaced, the
    answer is flagged edited, and the edit history grows by one entry that
    keeps the content replaced, the editor, the time and the reason (or
    "No reason provided"); votes, acceptance, author and question of the
    answer, and every other document, are as before. *)
Theorem answer_edit_recorded now user id content editReason st a :
  answers st !! id = Some a → Answer.isDeleted a = false →
  Answer.author a = _id user ∨ role user = User.admin →
  isLength 20 None content = true →
  let o := answers_put now user id content editReason st in
  (content = Answer.content a →
     response o = {| status := 400; body := message "No changes to update" |}
     ∧ store o = st)
  ∧ (content ≠ Answer.content a →
     status (response o) = 200%nat
     ∧ ∃ a', store o = set_answers st (<[id := a']> (answers st))
        ∧ Answer.content a' = content
        ∧ Answer.isEdited a' = true
        ∧ Answer.editHistory a'
          = Answer.editHistory a ++
            [{| editedBy := _id user; editedAt := now;
                previousContent := Answer.content a;
                editReason := orNoReason editReason |}]
        ∧ Answer.votes a' = Answer.votes a
        ∧ Answer.isAccepted a' = Answer.isAccepted a
        ∧ Answer.acceptedAt a' = Answer.acceptedAt a
        ∧ Answer.acceptedBy a' = Answer.acceptedBy a
        ∧ Answer.author a' = Answer.author a
        ∧ Answer.question a' = Answer.question a
        ∧ Answer.isDeleted a' = false).
Proof.
  intros Ha Hd Hauth Hlen o.
  assert (Hgate : bool_decide (Answer.author a ≠ _id user)
                  && bool_decide (role user ≠ User.admin) = false).
  { destruct Hauth as [E|E].
    - by rewrite (bool_decide_eq_false_2 (Answer.author a ≠ _id user)) by (by intros ?).
    - rewrite (bool_decide_eq_false_2 (role user ≠ User.admin)) by (by intros ?).
      apply andb_false_r. }
  unfold o, answers_put, validationResult. simpl. rewrite Hlen. simpl.
  rewrite Ha, Hd, Hgate. split.
  - intros E. by rewrite bool_decide_eq_true_2.
  - intros E. rewrite bool_decide_eq_false_2 by done. simpl.
    split; [done|]. eexists. split; [reflexivity|]. by simpl.
Qed.

(** X7.  A delete of a live answer by its author or by an admin is a soft
    delete: the answer stays in the collection with its content, votes and
    acceptance fields, flagged deleted, with who deleted it, when, and why
    (or "No reason provided"); nothing else is written; and a second
    delete of it, by anyone, answers 404 and writes nothing. *)
Theorem answer_soft_delete now user id reason st a :
  answers st !! id = Some a → Answer.isDeleted a = false →
  Answer.author a = _id user ∨ role user = User.admin →
  let o := answers_delete now user id reason st in
  response o = {| status := 200; body := message "Answer deleted successfully" |}
  ∧ (∃ a', store o = set_answers st (<[id := a']> (answers st))
       ∧ Answer.isDeleted a' = true
       ∧ Answer.deletedBy a' = Some (_id user)
       ∧ Answer.deletedAt a' = Some now
       ∧ Answer.deleteReason a' = Some (orNoReason reason)
       ∧ Answer.content a' = Answer.content a
       ∧ Answer.votes a' = Answer.votes a
       ∧ Answer.isAccepted a' = Answer.isAccepted a
       ∧ Answer.author a' = Answer.author a
       ∧ Answer.question a' = Answer.question a)
  ∧ (∀ now' user' reason',
       let o' := answers_delete now' user' id reason' (store o) in
       response o' = {| status := 404; body := message "Answer not found" |}
       ∧ store o' = store o).
Proof.
  intros Ha Hd Hauth o.
  assert (Hgate : bool_decide (Answer.author a ≠ _id user)
                  && bool_decide (role user ≠ User.admin) = false).
  { destruct Hauth as [E|E].
    - by rewrite (bool_decide_eq_false_2 (Answer.author a ≠ _id user)) by (by intros ?).
    - rewrite (bool_decide_eq_false_2 (role user ≠ User.admin)) by (by intros ?).
      apply andb_false_r. }
  unfold o, answers_delete. rewrite Ha, Hd, Hgate. simpl. split_and!.
  - done.
  - eexists. split; [reflexivity|]. by simpl.
  - intros now' user' reason'. simpl. by rewrite lookup_insert_eq.
Qed.

(** X8.  A soft-deleted answer is out of reach of every answer route:
    edit, delete, vote, accept and unaccept all write nothing; delete,
    accept and unaccept answer 404 "Answer not found", and so do edit and
    vote once their body passes validation (400 otherwise). *)
Theorem deleted_answer_untouched app now user id content editReason reason
    voteType st a :
  answers st !! id = Some a → Answer.isDeleted a = true →
  let notFound := {| status := 404; body := message "Answer not found" |} in
  (store (answers_put now user id content editReason st) = st
   ∧ (isLength 20 None content = true →
        response (answers_put now user id content editReason st) = notFound)
   ∧ (isLength 20 None content = false →
        status (response (answers_put now user id content editReason st)) = 400%nat))
  ∧ (store (answers_vote now user id voteType st) = st
     ∧ (isVoteType voteType = true →
          response (answers_vote now user id voteType st) = notFound)
     ∧ (isVoteType voteType = false →
          status (response (answers_vote now user id voteType st)) = 400%nat))
  ∧ answers_delete now user id reason st = reply st 404 (message "Answer not found")
  ∧ answers_accept app now user id st = reply st 404 (message "Answer not found")
  ∧ answers_unaccept user id st = reply st 404 (message "Answer not found").
Proof.
  intros Ha Hd notFound.
  unfold answers_put, answers_vote, answers_delete, answers_accept,
    answers_unaccept, validationResult. simpl. rewrite Ha, Hd.
  destruct (isLength 20 None content), (isVoteType voteType); simpl;
    split_and!; done.
Qed.

(** ** More on the acceptance protocol *)

(** The store after a delete that goes through. *)
Lemma answer_soft_delete_store now user id reason st a :
  answers st !! id = Some a → Answer.isDeleted a = false →
  Answer.author a = _id user ∨ role user = User.admin →
  ∃ a', store (answers_delete now user id reason st)
        = set_answers st (<[id := a']> (answers st))
     ∧ Answer.isDeleted a' = true
     ∧ Answer.isAccepted a' = Answer.isAccepted a
     ∧ Answer.question a' = Answer.question a.
Proof.
  intros Ha Hd Hauth.
  assert (Hgate : bool_decide (Answer.author a ≠ _id user)
                  && bool_decide (role user ≠ User.admin) = false).
  { destruct Hauth as [E|E].
    - by rewrite (bool_decide_eq_false_2 (Answer.author a ≠ _id user)) by (by intros ?).
    - rewrite (bool_decide_eq_false_2 (role user ≠ User.admin)) by (by intros ?).
      apply andb_false_r. }
  unfold answers_delete. rewrite Ha, Hd, Hgate. simpl.
  eexists. split; [reflexivity|]. by simpl.
Qed.

(** X9.  Soft-deleting the accepted answer of a question does not unaccept
    it: the question keeps pointing to it and stays answered, the answer
    keeps its flag, and an unaccept of it now answers 404.  What clears it
    is the accept of another answer of the question by the question's
    author: the deleted answer is then unflagged and the question points
    to the new one. *)
Theorem delete_keeps_acceptance app now now2 user id reason st a q :
  answers st !! id = Some a → Answer.isDeleted a = false →
  Answer.isAccepted a = true →
  Answer.author a = _id user ∨ role user = User.admin →
  questions st !! Answer.question a = Some q → Question.isDeleted q = false →
  Question.acceptedAnswer q = Some id →
  let o := answers_delete now user id reason st in
  questions (store o) = questions st
  ∧ (∃ a', answers (store o) !! id = Some a'
           ∧ Answer.isAccepted a' = true ∧ Answer.isDeleted a' = true)
  ∧ (∀ user', answers_unaccept user' id (store o)
              = reply (store o) 404 (message "Answer not found"))
  ∧ (∀ owner j b,
       answers st !! j = Some b → j ≠ id →
       Answer.question b = Answer.question a → Answer.isDeleted b = false →
       Question.author q = _id owner →
       let o2 := answers_accept app now2 owner j (store o) in
       status (response o2) = 200%nat
       ∧ (∃ a'', answers (store o2) !! id = Some a''
                 ∧ Answer.isAccepted a'' = false
                 ∧ Answer.acceptedAt a'' = None
                 ∧ Answer.acceptedBy a'' = None
                 ∧ Answer.isDeleted a'' = true)
       ∧ ∃ q', questions (store o2) !! Answer.question a = Some q'
               ∧ Question.acceptedAnswer q' = Some j
               ∧ Question.isAnswered q' = true).
Proof.
  intros Ha Hd Hacc Hauth Hq Hdq Hptr o.
  destruct (answer_soft_delete_store now user id reason st a Ha Hd Hauth)
    as (a' & Hst & Hda' & Hacc' & Hqa').
  fold o in Hst.
  assert (Hid : answers (store o) !! id = Some a').
  { rewrite Hst. simpl. apply lookup_insert_eq. }
  split_and!.
  - by rewrite Hst.
  - exists a'. split_and!; [done|congruence|done].
  - intros user'. unfold answers_unaccept. by rewrite Hid, Hda'.
  - intros owner j b Hj Hne Hqb Hdb Hown o2.
    assert (Hj' : answers (store o) !! j = Some b).
    { rewrite Hst. simpl. by rewrite lookup_insert_ne. }
    assert (Hq' : questions (store o) !! Answer.question b = Some q).
    { rewrite Hst, Hqb. done. }
    destruct (answers_accept_success app now2 owner j (store o) b q
                Hj' Hdb Hq' Hdq Hown) as (H200 & Hans & Hqs & _).
    fold o2 in H200, Hans, Hqs. rewrite Hptr, Hid in Hans.
    split_and!.
    + done.
    + exists (Answer.unacceptAnswer a'). split_and!; simpl; try done.
      rewrite Hans. rewrite lookup_insert_ne by done. apply lookup_insert_eq.
    + eexists. split; [rewrite Hqs, Hqb; apply lookup_insert_eq|done].
Qed.

(** X10.  Accept then unaccept is a round trip: when the question's author
    accepts an answer that bears no acceptance mark, on a question with no
    accepted answer, and then unaccepts it, both requests succeed and the
    answers and the questions are again those of the start. *)
Theorem accept_unaccept_round_trip app now user id st a q :
  answers st !! id = Some a → Answer.isDeleted a = false →
  Answer.isAccepted a = false → Answer.acceptedAt a = None →
  Answer.acceptedBy a = None →
  questions st !! Answer.question a = Some q → Question.isDeleted q = false →
  Question.author q = _id user →
  Question.isAnswered q = false → Question.acceptedAnswer q = None →
  let o1 := answers_accept app now user id st in
  let o2 := answers_unaccept user id (store o1) in
  status (response o1) = 200%nat ∧ status (response o2) = 200%nat
  ∧ answers (store o2) = answers st
  ∧ questions (store o2) = questions st
  ∧ users (store o2) = users st.
Proof.
  intros Ha Hd Hacc Hat Hby Hq Hdq Hau Hans Hptr o1 o2.
  destruct (answers_accept_success app now user id st a q Ha Hd Hq Hdq Hau)
    as (H1 & Ha1 & Hq1 & Hu1 & _).
  fold o1 in H1, Ha1, Hq1, Hu1. rewrite Hptr in Ha1.
  assert (Hback_a : Answer.unacceptAnswer (Answer.acceptAnswer a (_id user) now) = a).
  { destruct a. simpl in *. by subst. }
  assert (Hback_q : Question.set_accepted (Question.set_accepted q true (Some id))
                      false None = q).
  { destruct q. simpl in *. by subst. }
  unfold o2, answers_unaccept.
  rewrite Ha1, lookup_insert_eq. simpl. rewrite Hd.
  rewrite Hq1, lookup_insert_eq. simpl. rewrite Hdq.
  rewrite bool_decide_eq_false_2 by (by intros ?). simpl.
  fold (Answer.unacceptAnswer (Answer.acceptAnswer a (_id user) now)).
  rewrite Hback_a, Hback_q, !insert_insert_eq.
  split_and!; try done; by apply insert_id.
Qed.

(** X11.  Accepting and unaccepting belong to the question's author alone:
    any other caller, an admin included, gets 403 on a live answer of a
    live question, and nothing is written. *)
Theorem accept_author_only app now user id st a q :
  answers st !! id = Some a → Answer.isDeleted a = false →
  questions st !! Answer.question a = Some q → Question.isDeleted q = false →
  Question.author q ≠ _id user →
  answers_accept app now user id st
  = reply st 403 (message "Only the question author can accept answers")
  ∧ answers_unaccept user id st
    = reply st 403 (message "Only the question author can unaccept answers").
Proof.
  intros Ha Hd Hq Hdq Hau. unfold answers_accept, answers_unaccept.
  rewrite Ha, Hd, Hq, Hdq. by rewrite bool_decide_eq_true_2.
Qed.

(** ** More on the notification fan-out *)

(** X12.  A post that goes through tells the question's author: it adds
    one notification of type [answer_received], from the poster to the
    question's author, about the question and the new answer; unless the
    poster is the question's author, in which case it adds none. *)
Theorem post_notifies_asker app user content qid st q :
  isLength 20 None content = true →
  questions st !! qid = Some q → Question.isDeleted q = false →
  noLiveAnswer st (_id user) qid →
  let o := answers_post app user content (Some qid) st in
  (Question.author q ≠ _id user →
     ∃ n, notifications (store o) = notifications st ++ [n]
          ∧ Notification.recipient n = Question.author q
          ∧ Notification.sender n = Some (_id user)
          ∧ Notification.type n = Notification.answer_received
          ∧ Notification.relatedQuestion n = Some qid
          ∧ Notification.relatedAnswer n = Some (freshId (answers st))
          ∧ Notification.isRead n = false)
  ∧ (Question.author q = _id user → notifications (store o) = notifications st).
Proof.
  intros Hlen Hq Hdq Hno o. apply existingAnswer_None in Hno.
  unfold o, answers_post, answers_post_checks, validationResult. simpl.
  rewrite Hlen. simpl. rewrite Hq, Hdq, Hno. split.
  - intros Hne. rewrite bool_decide_eq_true_2 by done. simpl.
    eexists. split; [reflexivity|done].
  - intros He. by rewrite bool_decide_eq_false_2 by (by intros ?).
Qed.

(** The push of [notify]: nothing, or one event for the notification just
    stored. *)
Lemma notify_emits app st n :
  ∀ e, e ∈ (notify app st n).2 →
    (notify app st n).2 = [e]
    ∧ io app = true
    ∧ connectedUsers app !! Notification.recipient n = Some (to e)
    ∧ to e ≠ ""
    ∧ event e = "newNotification"
    ∧ emit_type e = Notification.type n
    ∧ emit_title e = Notification.title n
    ∧ emit_message e = Notification.message n.
Proof.
  intros e. unfold notify, liveSocket. simpl.
  destruct (connectedUsers app !! Notification.recipient n) as [sid|] eqn:Hs;
    [|by intros ?%elem_of_nil].
  destruct (io app) eqn:Hio; simpl; [|by intros ?%elem_of_nil].
  case_bool_decide as Hsid; simpl; [by intros ?%elem_of_nil|].
  intros ->%list_elem_of_singleton. by split_and!.
Qed.

(** X13.  The real-time push never runs ahead of the persisted record: a
    post or an accept emits at most one event, and when it emits one, the
    socket server is there, a notification has just been stored, the
    event goes to the socket registered for the recipient of that
    notification, and it carries its type, title and message. *)
Theorem push_follows_record app now user content questionId id st :
  let pushed (o : Outcome) :=
    ∀ e, e ∈ emitted o →
      emitted o = [e]
      ∧ io app = true
      ∧ event e = "newNotification"
      ∧ ∃ n, notifications (store o) = notifications st ++ [n]
             ∧ connectedUsers app !! Notification.recipient n = Some (to e)
             ∧ to e ≠ ""
             ∧ emit_type e = Notification.type n
             ∧ emit_title e = Notification.title n
             ∧ emit_message e = Notification.message n in
  pushed (answers_post app user content questionId st)
  ∧ pushed (answers_accept app now user id st).
Proof.
  assert (Hn : ∀ st1 n e,
    notifications st1 = notifications st →
    e ∈ (notify app st1 n).2 →
    (notify app st1 n).2 = [e] ∧ io app = true ∧ event e = "newNotification"
    ∧ ∃ n', notifications (notify app st1 n).1 = notifications st ++ [n']
            ∧ connectedUsers app !! Notification.recipient n' = Some (to e)
            ∧ to e ≠ ""
            ∧ emit_type e = Notification.type n'
            ∧ emit_title e = Notification.title n'
            ∧ emit_message e = Notification.message n').
  { intros st1 n e Hst He.
    destruct (notify_emits app st1 n e He) as (H1 & H2 & H3 & H4 & H5 & H6 & H7 & H8).
    split_and!; try done. exists n. simpl. rewrite Hst. by split_and!. }
  simpl. split; intros e.
  - unfold answers_post.
    destruct (validationResult _); [|by intros ?%elem_of_nil].
    destruct questionId as [qid|]; [|by intros ?%elem_of_nil].
    destruct (questions st !! qid) as [q|]; [|by intros ?%elem_of_nil].
    destruct (Question.isDeleted q); [by intros ?%elem_of_nil|].
    destruct (findOne _ _); [by intros ?%elem_of_nil|].
    case_bool_decide; cbn -[notify]; [by apply Hn|by intros ?%elem_of_nil].
  - unfold answers_accept.
    destruct (answers st !! id) as [a|]; [|by intros ?%elem_of_nil].
    destruct (Answer.isDeleted a); [by intros ?%elem_of_nil|].
    destruct (questions st !! Answer.question a) as [q|];
      [|by intros ?%elem_of_nil].
    destruct (Question.isDeleted q); [by intros ?%elem_of_nil|].
    case_bool_decide; [by intros ?%elem_of_nil|].
    case_bool_decide; cbn -[notify]; [by apply Hn|by intros ?%elem_of_nil].
Qed.

(** ** Counting documents *)

Section Counting.

Context {V : Type}.

Lemma filter_length_Permutation (f : ObjectId * V → bool) l l' :
  l ≡ₚ l' → length (List.filter f l) = length (List.filter f l').
Proof.
  induction 1 as [|x l l' _ IH|x y l|l1 l2 l3 _ IH1 _ IH2]; simpl.
  - done.
  - destruct (f x); simpl; by rewrite IH.
  - destruct (f x), (f y); by simpl.
  - by rewrite IH1.
Qed.

Lemma countDocuments_fresh (f : V → bool) (m : gmap ObjectId V) i y :
  m !! i = None →
  countDocuments f (<[i := y]> m) = countDocuments f m + (if f y then 1 else 0).
Proof.
  intros Hi. unfold countDocuments.
  rewrite (filter_length_Permutation _ _ _ (map_to_list_insert m i y Hi)).
  simpl. destruct (f y); simpl; lia.
Qed.

Lemma countDocuments_delete (f : V → bool) (m : gmap ObjectId V) i x :
  m !! i = Some x →
  countDocuments f (delete i m) = countDocuments f m - (if f x then 1 else 0).
Proof.
  intros Hi. rewrite <- (insert_delete_id m i x Hi) at 2.
  rewrite countDocuments_fresh by apply lookup_delete_eq. lia.
Qed.

(** Replacing a document moves the count by what the old and the new one
    weigh. *)
Lemma countDocuments_insert (f : V → bool) (m : gmap ObjectId V) i x y :
  m !! i = Some x →
  countDocuments f (<[i := y]> m)
  = countDocuments f m - (if f x then 1 else 0) + (if f y then 1 else 0).
Proof.
  intros Hi. rewrite <- (insert_delete_eq m i y).
  rewrite countDocuments_fresh by apply lookup_delete_eq.
  by rewrite (countDocuments_delete f m i x Hi).
Qed.

Lemma countDocuments_nonneg (f : V → bool) (m : gmap ObjectId V) :
  0 ≤ countDocuments f m.
Proof. unfold countDocuments. lia. Qed.

(** A stricter filter counts no more. *)
Lemma countDocuments_mono (f g : V → bool) (m : gmap ObjectId V) :
  (∀ x, f x = true → g x = true) → countDocuments f m ≤ countDocuments g m.
Proof.
  intros Hfg. unfold countDocuments.
  induction (map_to_list m) as [|[i x] l IH]; [done|]. simpl.
  destruct (f x) eqn:Ef.
  - rewrite (Hfg x Ef). simpl. lia.
  - destruct (g x); simpl; lia.
Qed.

Lemma countDocuments_ext (f g : V → bool) (m : gmap ObjectId V) :
  (∀ i x, m !! i = Some x → f x = g x) → countDocuments f m = countDocuments g m.
Proof.
  intros Hfg. unfold countDocuments. f_equal. f_equal.
  apply List.filter_ext_in_iff. intros [i x] Hin. simpl.
  apply Hfg with i. by apply elem_of_map_to_list, list_elem_of_In.
Qed.

Lemma countDocuments_none (f : V → bool) (m : gmap ObjectId V) :
  (∀ i x, m !! i = Some x → f x = false) → countDocuments f m = 0.
Proof.
  intros Hf. rewrite (countDocuments_ext f (λ _, false) m Hf).
  unfold countDocuments. induction (map_to_list m); simpl; done.
Qed.

End Counting.

(** ** More on the question routes *)

Section QuestionsMore.

Context (toLowerCase trim : string → string)
        (JSON_stringify : string → string → list string → string)
        (textSearch : string → Question.t → bool).






(** X16.  A soft-deleted question is closed: its edit, delete and vote
    routes write nothing and answer 404 (the edit and the vote once their
    body passes validation); a post of an answer to it writes nothing and
    answers 404 once its body passes validation; and accept and unaccept
    of its live answers answer 404 "Question not found" and write
    nothing.  It stays in the collection. *)
Theorem deleted_question_closed app now user qid title description tags
    editReason reason voteType content st q :
  questions st !! qid = Some q → Question.isDeleted q = true →
  let notFound := {| status := 404; body := message "Question not found" |} in
  let put := questions_put toLowerCase trim JSON_stringify now user qid title
               description tags editReason st in
  store put = st
  ∧ (validationResult (questions_put_checks title description tags) = [] →
       response put = notFound)
  ∧ questions_delete now user qid reason st
    = reply st 404 (message "Question not found")
  ∧ store (questions_vote now user qid voteType st) = st
  ∧ (isVoteType voteType = true →
       response (questions_vote now user qid voteType st) = notFound)
  ∧ store (answers_post app user content (Some qid) st) = st
  ∧ (isLength 20 None content = true →
       response (answers_post app user content (Some qid) st) = notFound)
  ∧ (∀ id a, answers st !! id = Some a → Answer.question a = qid →
       Answer.isDeleted a = false →
       answers_accept app now user id st
       = reply st 404 (message "Question not found")
       ∧ answers_unaccept user id st
         = reply st 404 (message "Question not found")).
Proof.
  intros Hq Hd notFound put. split_and!.
  - unfold put, questions_put. destruct (validationResult _); [|done].
    by rewrite Hq, Hd.
  - intros Hv. unfold put, questions_put. by rewrite Hv, Hq, Hd.
  - unfold questions_delete. by rewrite Hq, Hd.
  - unfold questions_vote. destruct (validationResult _); [|done].
    by rewrite Hq, Hd.
  - intros Hv. unfold questions_vote, validationResult. simpl.
    by rewrite Hv, Hq, Hd.
  - unfold answers_post. destruct (validationResult _); [|done].
    by rewrite Hq, Hd.
  - intros Hv. unfold answers_post, answers_post_checks, validationResult.
    simpl. by rewrite Hv, Hq, Hd.
  - intros id a Ha <- Hda. unfold answers_accept, answers_unaccept.
    by rewrite Ha, Hda, Hq, Hd.
Qed.

(** X17.  Soft-deleting a question takes it out of every list: for any
    list request that passes validation, the total reported after the
    delete is the total before, less one when the question matched the
    request's filter. *)
Theorem delete_leaves_list now user id reason query st q :
  questions st !! id = Some q → Question.isDeleted q = false →
  Question.author q = _id user ∨ role user = User.admin →
  validationResult (questions_get_checks query) = [] →
  let o := questions_delete now user id reason st in
  let total s := responseTotal (response (questions_get toLowerCase textSearch query s)) in
  status (response o) = 200%nat
  ∧ ∃ n, total st = Some n
      ∧ total (store o)
        = Some (n - (if matchesFilter textSearch (listFilter toLowerCase query) q
                     then 1 else 0)).
Proof.
  intros Hq Hd Hauth Hv o total.
  assert (Hgate : bool_decide (Question.author q ≠ _id user)
                  && bool_decide (role user ≠ User.admin) = false).
  { destruct Hauth as [E|E].
    - by rewrite (bool_decide_eq_false_2 (Question.author q ≠ _id user))
        by (by intros ?).
    - rewrite (bool_decide_eq_false_2 (role user ≠ User.admin)) by (by intros ?).
      apply andb_false_r. }
  unfold o, total, questions_delete, questions_get, responseTotal.
  rewrite Hq, Hd, Hgate, Hv. simpl. split; [done|].
  eexists. split; [reflexivity|]. f_equal.
  rewrite (countDocuments_insert _ _ id q _ Hq).
  unfold matchesFilter at 3. simpl. lia.
Qed.

(** X18.  Accepting an answer takes its question out of the unanswered
    list: for a list request with [sort=unanswered] that passes
    validation, the total after a successful accept is the total before,
    less one when the question matched the request's filter. *)
Theorem accept_leaves_unanswered app now user id query st a q :
  answers st !! id = Some a → Answer.isDeleted a = false →
  questions st !! Answer.question a = Some q → Question.isDeleted q = false →
  Question.author q = _id user →
  ListQuery.sort query = Some "unanswered" →
  validationResult (questions_get_checks query) = [] →
  let o := answers_accept app now user id st in
  let total s := responseTotal (response (questions_get toLowerCase textSearch query s)) in
  ∃ n, total st = Some n
    ∧ total (store o)
      = Some (n - (if matchesFilter textSearch (listFilter toLowerCase query) q
                   then 1 else 0)).
Proof.
  intros Ha Hd Hq Hdq Hau Hsort Hv o total.
  destruct (answers_accept_success app now user id st a q Ha Hd Hq Hdq Hau)
    as (_ & _ & Hqs & _).
  fold o in Hqs.
  unfold total, questions_get, responseTotal. rewrite Hv. simpl.
  eexists. split; [reflexivity|]. f_equal. rewrite Hqs.
  rewrite (countDocuments_insert _ _ _ q _ Hq).
  assert (Hout : matchesFilter textSearch (listFilter toLowerCase query)
                   (Question.set_accepted q true (Some id)) = false).
  { unfold matchesFilter, listFilter. rewrite Hsort. simpl.
    by rewrite andb_false_r. }
  rewrite Hout. lia.
Qed.

End QuestionsMore.

(** ** More on the moderation routes *)

Lemma set_users_same st : set_users st (users st) = st.
Proof. by destruct st. Qed.

(** X19.  Ban then unban: both go through on a user who is not an admin,
    and the user ends not banned, with an empty ban reason and every other
    field as before; when the user was not banned and had no ban reason to
    start with, the store is back to where it was.  Unban needs no reason
    and does not look at the role. *)
Theorem ban_unban_round_trip id r st u :
  users st !! id = Some u → User.role u ≠ User.admin → r ≠ "" →
  let o1 := users_ban id (Some r) st in
  let o2 := users_unban id (store o1) in
  status (response o1) = 200%nat ∧ status (response o2) = 200%nat
  ∧ store o2 = set_users st (<[id := User.set_ban u false ""]> (users st))
  ∧ (User.isBanned u = false → User.banReason u = "" → store o2 = st).
Proof.
  intros Hu Hrole Hr o1 o2.
  assert (Hv : validationResult (users_ban_checks (Some r)) = []).
  { unfold users_ban_checks, validationResult. simpl.
    by rewrite (bool_decide_eq_false_2 _ Hr). }
  assert (H1 : o1 = {| store := set_users st (<[id := User.set_ban u true r]> (users st));
                       response := {| status := 200;
                                      body := message "User banned successfully" |};
                       emitted := [] |}).
  { unfold o1, users_ban. rewrite Hv, Hu. by rewrite bool_decide_eq_false_2. }
  unfold o2, users_unban. rewrite H1. simpl. rewrite lookup_insert_eq. simpl.
  rewrite insert_insert_eq. split_and!; try done.
  intros Hb Hbr.
  assert (E : User.set_ban (User.set_ban u true r) false "" = u).
  { destruct u. simpl in *. by subst. }
  unfold set_users. simpl. rewrite E, (insert_id _ _ _ Hu). by destruct st.
Qed.

(** X20.  The role route and the ban route together: whatever the role of
    an existing user, setting it to admin makes a ban of that user fail
    with 403, and setting it to user lets the ban go through, an admin
    included; a role outside user and admin is refused with 400 and
    nothing is written. *)
Theorem role_decides_ban id r st u :
  users st !! id = Some u → r ≠ "" →
  let promoted := store (users_role id (Some User.admin) st) in
  let demoted := store (users_role id (Some User.user) st) in
  (response (users_ban id (Some r) promoted)
   = {| status := 403; body := message "Cannot ban admin users" |}
   ∧ store (users_ban id (Some r) promoted) = promoted)
  ∧ (status (response (users_ban id (Some r) demoted)) = 200%nat
     ∧ ∃ u', users (store (users_ban id (Some r) demoted)) !! id = Some u'
             ∧ User.isBanned u' = true ∧ User.banReason u' = r
             ∧ User.role u' = User.user)
  ∧ (∀ bad, bad = None ∨ bad = Some User.guest →
       status (response (users_role id bad st)) = 400%nat
       ∧ store (users_role id bad st) = st).
Proof.
  intros Hu Hr promoted demoted.
  assert (Hv : validationResult (users_ban_checks (Some r)) = []).
  { unfold users_ban_checks, validationResult. simpl.
    by rewrite (bool_decide_eq_false_2 _ Hr). }
  split_and!.
  - unfold promoted, users_role, users_ban. rewrite Hu, Hv. simpl.
    by rewrite lookup_insert_eq.
  - unfold promoted, users_role, users_ban. rewrite Hu, Hv. simpl.
    by rewrite lookup_insert_eq.
  - unfold demoted, users_role, users_ban. rewrite Hu, Hv. simpl.
    by rewrite lookup_insert_eq.
  - unfold demoted, users_role, users_ban. rewrite Hu, Hv. simpl.
    rewrite lookup_insert_eq. simpl. rewrite lookup_insert_eq.
    eexists. by split_and!.
  - intros bad [-> | ->]; by unfold users_role.
Qed.

(** X21.  The public profile of a banned user is hidden: [GET /users/:id]
    answers not found for a user who does not exist and for one who is
    banned; so a ban that goes through hides the profile and the unban
    shows it again, with the same user name.  The statistics of a profile
    count live documents only, and no more accepted answers than
    answers. *)
Theorem profile_hidden_when_banned id r st u :
  users st !! id = Some u → User.role u ≠ User.admin → r ≠ "" →
  let banned := store (users_ban id (Some r) st) in
  users_get_id id banned = profile_not_found
  ∧ (∃ p s, users_get_id id (store (users_unban id banned)) = profile_found p s
            ∧ profile_id p = id
            ∧ profile_username p = User.username u
            ∧ 0 ≤ stats_acceptedAnswers s ≤ stats_answers s
            ∧ 0 ≤ stats_questions s)
  ∧ (∀ id', users st !! id' = None → users_get_id id' st = profile_not_found).
Proof.
  intros Hu Hrole Hr banned.
  assert (Hv : validationResult (users_ban_checks (Some r)) = []).
  { unfold users_ban_checks, validationResult. simpl.
    by rewrite (bool_decide_eq_false_2 _ Hr). }
  assert (Hb : banned = set_users st (<[id := User.set_ban u true r]> (users st))).
  { unfold banned, users_ban. rewrite Hv, Hu. by rewrite bool_decide_eq_false_2. }
  split_and!.
  - rewrite Hb. unfold users_get_id. simpl. by rewrite lookup_insert_eq.
  - rewrite Hb. unfold users_unban, users_get_id. simpl.
    rewrite lookup_insert_eq. simpl. rewrite lookup_insert_eq. simpl.
    eexists _, _. split; [reflexivity|]. simpl. split_and!; try done.
    + apply countDocuments_nonneg.
    + apply countDocuments_mono. intros x Hx.
      apply andb_true_iff in Hx as [Hx Hd]. apply andb_true_iff in Hx as [Hx _].
      by rewrite Hx, Hd.
    + apply countDocuments_nonneg.
  - intros id' Hn. unfold users_get_id. by rewrite Hn.
Qed.

(** X22.  Soft-deleting an answer takes it out of its author's profile:
    the answers counted for the author go down by one, and the accepted
    answers counted go down by one when the answer was accepted; the
    questions counted do not move. *)
Theorem delete_leaves_profile now user id reason st a u :
  answers st !! id = Some a → Answer.isDeleted a = false →
  Answer.author a = _id user ∨ role user = User.admin →
  users st !! Answer.author a = Some u → User.isBanned u = false →
  let o := answers_delete now user id reason st in
  ∃ p s s', users_get_id (Answer.author a) st = profile_found p s
    ∧ users_get_id (Answer.author a) (store o) = profile_found p s'
    ∧ stats_answers s' = stats_answers s - 1
    ∧ stats_acceptedAnswers s'
      = stats_acceptedAnswers s - (if Answer.isAccepted a then 1 else 0)
    ∧ stats_questions s' = stats_questions s.
Proof.
  intros Ha Hd Hauth Hu Hb o.
  assert (Hgate : bool_decide (Answer.author a ≠ _id user)
                  && bool_decide (role user ≠ User.admin) = false).
  { destruct Hauth as [E|E].
    - by rewrite (bool_decide_eq_false_2 (Answer.author a ≠ _id user)) by (by intros ?).
    - rewrite (bool_decide_eq_false_2 (role user ≠ User.admin)) by (by intros ?).
      apply andb_false_r. }
  unfold o, answers_delete, users_get_id. rewrite Ha, Hd, Hgate. simpl.
  rewrite Hu, Hb. eexists _, _, _. split; [reflexivity|]. split; [reflexivity|].
  simpl. rewrite !(countDocuments_insert _ _ id a _ Ha). simpl.
  rewrite Hd, !bool_decide_eq_true_2 by done. simpl.
  rewrite !andb_false_r. split_and!; try done; try lia.
  destruct (Answer.isAccepted a); simpl; lia.
Qed.

(** ** The notification routes *)

(** Counting after an update of every document is counting with the
    update folded into the filter. *)
Lemma countDocuments_fmap {V} (f : V → bool) (g : V → V) (m : gmap ObjectId V) :
  countDocuments f (g <$> m) = countDocuments (λ x, f (g x)) m.
Proof.
  unfold countDocuments. rewrite map_to_list_fmap. f_equal.
  induction (map_to_list m) as [|[i x] l IH]; [done|].
  rewrite fmap_cons. cbn [List.filter prod_map fst snd].
  destruct (f (g x)); cbn [length]; by rewrite IH.
Qed.

(** X23.  A notification can be marked read, marked unread or deleted by
    its recipient only: on a notification addressed to someone else the
    three routes answer 403, on an id that is not in the collection 404,
    and in both cases the collection is left as it is. *)
Theorem notification_owner_only now user id c :
  (c !! id = None →
     notifications_read now user id c = replyN c 404 "Notification not found"
     ∧ notifications_unread user id c = replyN c 404 "Notification not found"
     ∧ notifications_delete user id c = replyN c 404 "Notification not found")
  ∧ (∀ n, c !! id = Some n → Notification.recipient n ≠ _id user →
       notifications_read now user id c
       = replyN c 403 "Not authorized to access this notification"
       ∧ notifications_unread user id c
         = replyN c 403 "Not authorized to access this notification"
       ∧ notifications_delete user id c
         = replyN c 403 "Not authorized to delete this notification").
Proof.
  unfold notifications_read, notifications_unread, notifications_delete. split.
  - by intros ->.
  - intros n -> Hne. by rewrite !bool_decide_eq_true_2.
Qed.

(** X24.  Marking one's notification read stamps it with the time, and
    the unread count of the recipient goes down by one when it was unread
    (it does not move otherwise); marking it unread again clears the
    stamp, and gives back the collection of the start when the
    notification was unread and unstamped.  The unread counts of the other
    users do not move. *)
Theorem read_unread_round_trip now user id c n :
  c !! id = Some n → Notification.recipient n = _id user →
  let o1 := notifications_read now user id c in
  let o2 := notifications_unread user id (collection o1) in
  status (answered o1) = 200%nat ∧ status (answered o2) = 200%nat
  ∧ collection o1 = <[id := Notifications.markAsRead n now]> c
  ∧ Notification.isRead (Notifications.markAsRead n now) = true
  ∧ Notification.readAt (Notifications.markAsRead n now) = Some now
  ∧ notifications_unread_count user (collection o1)
    = notifications_unread_count user c
      - (if Notification.isRead n then 0 else 1)
  ∧ (∀ other, _id other ≠ _id user →
       notifications_unread_count other (collection o1)
       = notifications_unread_count other c)
  ∧ collection o2 = <[id := Notifications.markAsUnread n]> c
  ∧ (Notification.isRead n = false → Notification.readAt n = None →
       collection o2 = c).
Proof.
  intros Hn Hrec o1 o2.
  assert (H1 : o1 = replyN (<[id := Notifications.markAsRead n now]> c) 200
                      "Notification marked as read").
  { unfold o1, notifications_read. rewrite Hn.
    by rewrite bool_decide_eq_false_2 by (by intros ?). }
  assert (H2 : o2 = replyN (<[id := Notifications.markAsUnread n]> c) 200
                      "Notification marked as unread").
  { unfold o2, notifications_unread. rewrite H1. simpl. rewrite lookup_insert_eq.
    simpl. rewrite bool_decide_eq_false_2 by (by intros ?).
    by rewrite insert_insert_eq. }
  rewrite H1, H2. simpl. split_and!; try done.
  - unfold notifications_unread_count, Notifications.getUnreadCount.
    rewrite (countDocuments_insert _ _ id n _ Hn).
    unfold Notifications.unreadOf, Notifications.sentTo. simpl.
    rewrite bool_decide_eq_true_2 by done. simpl.
    destruct (Notification.isRead n); simpl; lia.
  - intros other Hne.
    unfold notifications_unread_count, Notifications.getUnreadCount.
    rewrite (countDocuments_insert _ _ id n _ Hn).
    unfold Notifications.unreadOf, Notifications.sentTo. simpl.
    rewrite bool_decide_eq_false_2 by congruence. simpl. lia.
  - intros Hr Hat.
    assert (E : Notifications.markAsUnread n = n).
    { destruct n. simpl in *. by subst. }
    rewrite E. by apply insert_id.
Qed.

(** X25.  Mark-all-read leaves the caller with no unread notification:
    each unread notification of the caller is flagged read and stamped
    with the time, the ones already read keep their stamp, the
    notifications of everyone else are untouched, and none is added or
    removed. *)
Theorem mark_all_read_clears now user c :
  let o := notifications_mark_all_read now user c in
  status (answered o) = 200%nat
  ∧ notifications_unread_count user (collection o) = 0
  ∧ dom (collection o) = dom c
  ∧ (∀ i n, c !! i = Some n →
       (Notification.recipient n = _id user → Notification.isRead n = false →
          collection o !! i = Some (Notifications.markAsRead n now))
       ∧ (Notification.recipient n ≠ _id user ∨ Notification.isRead n = true →
          collection o !! i = Some n))
  ∧ (∀ other, _id other ≠ _id user →
       notifications_unread_count other (collection o)
       = notifications_unread_count other c).
Proof.
  intros o. unfold o, notifications_mark_all_read. simpl.
  unfold Notifications.markAllAsRead. split_and!.
  - done.
  - unfold notifications_unread_count, Notifications.getUnreadCount.
    apply countDocuments_none. intros i x. rewrite lookup_fmap.
    destruct (c !! i) as [n|]; [|done]. simpl. intros [= <-].
    destruct (Notifications.unreadOf (_id user) n) eqn:E; [|done].
    unfold Notifications.unreadOf in *. simpl.
    apply andb_true_iff in E as [E _].
    unfold Notifications.sentTo in *. simpl. by rewrite E.
  - apply dom_fmap_L.
  - intros i n Hi. rewrite lookup_fmap, Hi. simpl. split.
    + intros Hrec Hr. unfold Notifications.unreadOf, Notifications.sentTo.
      by rewrite bool_decide_eq_true_2, Hr.
    + intros Hor. unfold Notifications.unreadOf, Notifications.sentTo.
      destruct Hor as [Hne|Hr].
      * by rewrite bool_decide_eq_false_2.
      * by rewrite Hr, andb_false_r.
  - intros other Hne.
    unfold notifications_unread_count, Notifications.getUnreadCount.
    rewrite countDocuments_fmap. apply countDocuments_ext. intros i n _.
    destruct (Notifications.unreadOf (_id user) n) eqn:Eu; [|done].
    unfold Notifications.unreadOf, Notifications.sentTo in *. simpl.
    apply andb_true_iff in Eu as [Eu _]. apply bool_decide_eq_true in Eu.
    by rewrite !bool_decide_eq_false_2 by congruence.
Qed.


Lemma parseIntOr_bounds v lo hi d :
  optionalIsInt lo (Some hi) v = true → 1 ≤ lo → lo ≤ d ≤ hi →
  lo ≤ parseIntOr v d ≤ hi.
Proof.
  intros Hv Hlo Hd. unfold parseIntOr.
  destruct v as [[z|s]|]; simpl in Hv; try done; try lia.
  apply andb_true_iff in Hv as [H1 H2]. apply Z.leb_le in H1. apply Z.leb_le in H2.
  destruct (Z.eqb_spec z 0); lia.
Qed.

(** X27.  The list of one's notifications: a request that passes
    validation is answered 200 with the number of notifications matching
    the filter, the ceiling of that number over the limit (20 when none is
    given) as number of pages, and the caller's unread count, which is
    computed apart from the filter.  The filter keeps the unread ones only
    when [unreadOnly] is the string true: the total is then the unread
    count; with any other accepted spelling, or none, every notification
    of the caller is counted and the unread count is at most the total. *)
Theorem notifications_get_counts query user c :
  validationResult (notifications_get_checks query) = [] →
  ∃ pg unread,
    notifications_get query user c = (200%nat, list_page pg unread)
    ∧ unread = notifications_unread_count user c
    ∧ n_currentPage pg = parseIntOr (NotificationQuery.page query) 1
    ∧ is_ceil_div (totalNotifications pg)
        (parseIntOr (NotificationQuery.limit query) 20) (n_totalPages pg)
    ∧ 1 ≤ parseIntOr (NotificationQuery.limit query) 20 ≤ 50
    ∧ (NotificationQuery.unreadOnly query = Some "true" →
         totalNotifications pg = unread)
    ∧ (NotificationQuery.unreadOnly query ≠ Some "true" →
         totalNotifications pg = countDocuments (Notifications.sentTo (_id user)) c
         ∧ unread ≤ totalNotifications pg).
Proof.
  intros Hv.
  pose proof (validationResult_nil_all _ Hv) as Hall.
  unfold notifications_get_checks in Hall.
  apply Forall_cons in Hall as [_ Hall]. apply Forall_cons in Hall as [Hlim _].
  simpl in Hlim.
  pose proof (parseIntOr_bounds _ 1 50 20 Hlim ltac:(lia) ltac:(lia)) as Hl.
  unfold notifications_get. rewrite Hv.
  eexists _, _. split; [reflexivity|]. simpl. split_and!; try done; try lia.
  - apply Math_ceil_div_spec. lia.
  - intros Hu. unfold notificationsFilter. by rewrite Hu.
  - intros Hu. unfold notificationsFilter.
    rewrite (bool_decide_eq_false_2 _ Hu). split; [done|].
    apply countDocuments_mono. intros x Hx.
    unfold Notifications.unreadOf in Hx. by apply andb_true_iff in Hx as [Hx _].
Qed.

(** ** The order of the routes *)

Lemma dispatch_label_in router m path r :
  dispatch router m path = Some r → r ∈ router ∧ method r = m.
Proof.
  unfold dispatch. intros H. apply find_some in H as [Hin Hm].
  apply andb_true_iff in Hm as [Hm _]. apply bool_decide_eq_true in Hm.
  split; [by apply list_elem_of_In|done].
Qed.

(** X28.  Two routes are never reached.  A request [DELETE
    /api/notifications/clear-all] is served by the route [DELETE
    /api/notifications/:id], registered before it, and [GET
    /api/users/search] by [GET /api/users/:id]: no request is handed to
    the clear-all or the search route.  Every other route of the four
    routers is reached by the requests to its own path. *)
Theorem shadowed_routes :
  (∀ r, r ∈ notifications_router →
     live notifications_router r
     ↔ label r ≠ "DELETE /api/notifications/clear-all")
  ∧ (∀ r, r ∈ users_router →
       live users_router r ↔ label r ≠ "GET /api/users/search")
  ∧ (∀ r, r ∈ questions_router → live questions_router r)
  ∧ (∀ r, r ∈ answers_router → live answers_router r)
  ∧ (label <$> dispatch notifications_router DELETE ["clear-all"])
    = Some "DELETE /api/notifications/:id"
  ∧ (label <$> dispatch users_router GET ["search"]) = Some "GET /api/users/:id".
Proof.
  assert (Hword : ∀ w path, matchPath [word w] path = true → path = [w]).
  { intros w [|s [|s2 rest]] H; simpl in H; try done.
    - rewrite andb_true_r in H. by apply bool_decide_eq_true in H as ->.
    - by rewrite andb_false_r in H. }
  assert (Hclear : ∀ path r, dispatch notifications_router DELETE path = Some r →
            label r ≠ "DELETE /api/notifications/clear-all").
  { intros path r H Hl. pose proof H as H'.
    apply find_some in H' as [Hin Hm]. cbn [In notifications_router] in Hin.
    repeat (destruct Hin as [<-|Hin]; [try (cbn in Hl; discriminate Hl)|]);
      [|done].
    apply andb_true_iff in Hm as [_ Hm]. apply Hword in Hm as ->.
    vm_compute in H. discriminate H. }
  assert (Hsearch : ∀ path r, dispatch users_router GET path = Some r →
            label r ≠ "GET /api/users/search").
  { intros path r H Hl. pose proof H as H'.
    apply find_some in H' as [Hin Hm]. cbn [In users_router] in Hin.
    repeat (destruct Hin as [<-|Hin]; [try (cbn in Hl; discriminate Hl)|]);
      [|done].
    apply andb_true_iff in Hm as [_ Hm]. apply Hword in Hm as ->.
    vm_compute in H. discriminate H. }
  split_and!.
  - intros r Hr. split.
    + intros [path Hp]. intros Hl.
      apply list_elem_of_In in Hr. cbn [In notifications_router] in Hr.
      repeat (destruct Hr as [<-|Hr]; [try (cbn in Hl; discriminate Hl)|]);
        [|done].
      by apply (Hclear path _ Hp).
    + intros Hl. exists (pathOf (pattern r)).
      apply list_elem_of_In in Hr. cbn [In notifications_router] in Hr.
      repeat (destruct Hr as [<-|Hr]; [try (by vm_compute); try done|]); done.
  - intros r Hr. split.
    + intros [path Hp]. destruct (dispatch_label_in _ _ _ _ Hp) as [_ Hm].
      intros Hl. apply list_elem_of_In in Hr. cbn [In users_router] in Hr.
      repeat (destruct Hr as [<-|Hr]; [try (cbn in Hl; discriminate Hl)|]);
        [|done].
      by apply (Hsearch path _ Hp).
    + intros Hl. exists (pathOf (pattern r)).
      apply list_elem_of_In in Hr. cbn [In users_router] in Hr.
      repeat (destruct Hr as [<-|Hr]; [try (by vm_compute); try done|]); done.
  - intros r Hr. exists (pathOf (pattern r)).
    apply list_elem_of_In in Hr. cbn [In questions_router] in Hr.
    repeat (destruct Hr as [<-|Hr]; [by vm_compute|]); done.
  - intros r Hr. exists (pathOf (pattern r)).
    apply list_elem_of_In in Hr. cbn [In answers_router] in Hr.
    repeat (destruct Hr as [<-|Hr]; [by vm_compute|]); done.
  - by vm_compute.
  - by vm_compute.
Qed.

(** ** What holds of every store the API reaches *)

Section Reached.

Context (toLowerCase trim : string → string)
        (JSON_stringify : string → string → list string → string)
        (textSearch : string → Question.t → bool).

Local Abbreviation handle := (handle toLowerCase trim JSON_stringify textSearch).
Local Abbreviation reachable := (reachable toLowerCase trim JSON_stringify textSearch).

Lemma answered_coherent_insert st id q' :
  (Question.isAnswered q' = true ↔ is_Some (Question.acceptedAnswer q')) →
  answered_coherent st →
  answered_coherent (set_questions st (<[id := q']> (questions st))).
Proof. intros Hq' Hc. by apply map_Forall_insert_2. Qed.

Lemma answered_coherent_update st id q q' :
  questions st !! id = Some q →
  Question.isAnswered q' = Question.isAnswered q →
  Question.acceptedAnswer q' = Question.acceptedAnswer q →
  answered_coherent st →
  answered_coherent (set_questions st (<[id := q']> (questions st))).
Proof.
  intros Hq E1 E2 Hc. apply answered_coherent_insert; [|done].
  rewrite E1, E2. by apply (Hc id q).
Qed.

Lemma answered_coherent_ext st st' :
  questions st' = questions st → answered_coherent st → answered_coherent st'.
Proof. unfold answered_coherent. by intros ->. Qed.

Lemma answers_post_questions app user content questionId st :
  questions (store (answers_post app user content questionId st)) = questions st.
Proof.
  unfold answers_post.
  destruct (validationResult _); [|done].
  destruct questionId as [qid|]; [|done].
  destruct (questions st !! qid) as [q|]; [|done].
  destruct (Question.isDeleted q); [done|].
  destruct (findOne _ _); [done|]. by case_bool_decide.
Qed.

Lemma handle_answered_coherent app now r st :
  answered_coherent st → answered_coherent (store (handle app now r st)).
Proof.
  intros Hc. destruct r; simpl.
  - eapply answered_coherent_ext; [|done]. apply answers_post_questions.
  - eapply answered_coherent_ext; [|done].
    unfold answers_put. by repeat (case_match; simpl; try done).
  - eapply answered_coherent_ext; [|done].
    unfold answers_delete. by repeat (case_match; simpl; try done).
  - eapply answered_coherent_ext; [|done].
    unfold answers_vote. by repeat (case_match; simpl; try done).
  - unfold answers_accept.
    destruct (answers st !! id) as [a|]; [|done].
    destruct (Answer.isDeleted a); [done|].
    destruct (questions st !! Answer.question a) as [q|]; [|done].
    destruct (Question.isDeleted q); [done|].
    case_bool_decide; [done|].
    eapply answered_coherent_ext with
      (st := set_questions st (<[Answer.question a := _]> (questions st)));
      [by case_bool_decide|].
    apply answered_coherent_insert; [|done]. simpl. split; [by eexists|done].
  - unfold answers_unaccept.
    destruct (answers st !! id) as [a|]; [|done].
    destruct (Answer.isDeleted a); [done|].
    destruct (questions st !! Answer.question a) as [q|]; [|done].
    destruct (Question.isDeleted q); [done|].
    case_bool_decide; [done|].
    destruct (Answer.isAccepted a); [|done]. simpl.
    eapply answered_coherent_ext with
      (st := set_questions st (<[Answer.question a := _]> (questions st)));
      [done|].
    apply answered_coherent_insert; [|done]. simpl.
    split; [done|by intros [? ?]].
  - by rewrite questions_get_store.
  - unfold questions_post. repeat (case_match; simpl; try done).
    apply answered_coherent_insert; [|done]. simpl.
    split; [done|by intros [? ?]].
  - unfold questions_put. repeat (case_match; simpl; try done).
    all: by eapply answered_coherent_update.
  - unfold questions_delete. repeat (case_match; simpl; try done).
    by eapply answered_coherent_update.
  - unfold questions_vote. repeat (case_match; simpl; try done).
    all: by eapply answered_coherent_update.
  - destruct (users_routes_content id reason None st) as ((_ & ? & _) & _).
    by eapply answered_coherent_ext.
  - destruct (users_routes_content id None None st) as (_ & (_ & ? & _) & _).
    by eapply answered_coherent_ext.
  - destruct (users_routes_content id None newRole st) as (_ & _ & (_ & ? & _)).
    by eapply answered_coherent_ext.
Qed.

(** X29.  In every store the API reaches: a question has at most one
    answer flagged accepted, and that answer is the one the question
    points to; a question is flagged answered exactly when it points to an
    accepted answer; and an author has at most one answer that is not
    soft-deleted on a question. *)
Theorem reachable_acceptance st :
  reachable st →
  (∀ i j a b, answers st !! i = Some a → answers st !! j = Some b →
     Answer.question a = Answer.question b →
     Answer.isAccepted a = true → Answer.isAccepted b = true → i = j)
  ∧ (∀ i a, answers st !! i = Some a → Answer.isAccepted a = true →
       ∃ q, questions st !! Answer.question a = Some q
            ∧ Question.acceptedAnswer q = Some i
            ∧ Question.isAnswered q = true)
  ∧ (∀ i q, questions st !! i = Some q →
       (Question.isAnswered q = true ↔ is_Some (Question.acceptedAnswer q)))
  ∧ (∀ i j a b, answers st !! i = Some a → answers st !! j = Some b →
       Answer.author a = Answer.author b → Answer.question a = Answer.question b →
       Answer.isDeleted a = false → Answer.isDeleted b = false → i = j).
Proof.
  intros Hr.
  destruct (reachable_invariants _ _ _ _ st Hr) as [Hc Hs].
  assert (Ha : answered_coherent st).
  { induction Hr as [us|app now r st Hr IH].
    - intros i q Hq. simpl in Hq. by rewrite lookup_empty in Hq.
    - apply handle_answered_coherent. apply IH.
      + by destruct (reachable_invariants _ _ _ _ st Hr).
      + by destruct (reachable_invariants _ _ _ _ st Hr). }
  split_and!.
  - intros i j a b Hi Hj Hq Hai Hbj.
    destruct (accept_coherent_lookup _ _ _ Hc Hi Hai) as (q1 & Hq1 & Hp1).
    destruct (accept_coherent_lookup _ _ _ Hc Hj Hbj) as (q2 & Hq2 & Hp2).
    rewrite Hq in Hq1. congruence.
  - intros i a Hi Hai.
    destruct (accept_coherent_lookup _ _ _ Hc Hi Hai) as (q & Hq & Hp).
    exists q. split_and!; try done. apply (Ha _ q Hq). by eexists.
  - intros i q Hq. by apply (Ha i q).
  - intros i j a b. by apply single_answer_lookup.
Qed.

End Reached.

(** ** The further properties on the sample forum *)

Lemma hasUserVoted_after_vote_witness :
  Votes.hasUserVoted (Votes.addVote Sample.ledger 8 "upvote" 9) 8 = Some "upvote"
  ∧ Votes.hasUserVoted (Votes.addVote Sample.ledger 8 "upvote" 9) 7 = Some "upvote"
  ∧ Votes.hasUserVoted (Votes.removeVote Sample.ledger 8) 8 = None.
Proof.
  destruct (hasUserVoted_after_vote Sample.ledger 8 "upvote" 9) as (H1 & H2 & H3).
  - left. reflexivity.
  - destruct (H3 7%nat "upvote") as [H4 _]; [lia|].
    split_and!; [exact H1 | by rewrite H4 | exact H2].
Defined.

Lemma voteCount_after_vote_witness :
  Votes.voteCount (Votes.addVote Sample.ledger 8 "upvote" 9)
  = Votes.voteCount Sample.ledger + 2
  ∧ Votes.voteCount (Votes.addVote Sample.ledger 5 "downvote" 9)
    = Votes.voteCount Sample.ledger - 1.
Proof.
  destruct (voteCount_after_vote Sample.ledger 8 9) as (_ & _ & _ & _ & Hswitch).
  destruct (voteCount_after_vote Sample.ledger 5 9) as (_ & _ & _ & Hfirst & _).
  destruct (Hfirst eq_refl) as (_ & Hdown & _).
  split; [apply Hswitch; reflexivity | exact Hdown].
Defined.

Lemma vote_keeps_others_witness :
  List.filter (Votes.isBy 7) (Votes.upvotes (Votes.addVote Sample.ledger 8 "upvote" 9))
  = [{| Votes.user := 7%nat; Votes.createdAt := 1 |}].
Proof.
  destruct (vote_keeps_others Sample.ledger 8 7 "upvote" 9) as (H & _); [lia|].
  rewrite H. reflexivity.
Defined.

Lemma vote_routes_set_vote_witness :
  status (response (answers_vote 50 Sample.bob 1 "upvote" Sample.posted)) = 200%nat
  ∧ (answer_userVote <$> responseAnswer
       (response (answers_vote 50 Sample.bob 1 "upvote" Sample.posted)))
    = Some (Some "upvote")
  ∧ status (response (answers_vote 50 Sample.bob 1 "sideways" Sample.posted))
    = 400%nat.
Proof.
  destruct (vote_routes_set_vote 50 Sample.bob 1 "upvote" Sample.posted) as [_ Hok].
  destruct (Hok eq_refl) as [Hans _].
  destruct (Hans Sample.a1) as (H200 & _ & Hresp & _).
  { vm_compute. reflexivity. }
  { reflexivity. }
  destruct (vote_routes_set_vote 50 Sample.bob 1 "sideways" Sample.posted)
    as [Hbad _].
  destruct (Hbad eq_refl) as (H400 & _).
  split_and!; [exact H200 | by rewrite Hresp | exact H400].
Defined.

Lemma answer_edit_forbidden_witness :
  response (answers_delete 50 Sample.carol 1 None Sample.posted)
  = {| status := 403; body := message "Not authorized to delete this answer" |}
  ∧ store (answers_put 50 Sample.carol 1 "Use a table, as in the old days" None
             Sample.posted) = Sample.posted.
Proof.
  destruct (answer_edit_forbidden 50 Sample.carol 1
              "Use a table, as in the old days" None None Sample.posted Sample.a1)
    as (Hput & _ & H403).
  - vm_compute. reflexivity.
  - simpl. lia.
  - simpl. discriminate.
  - destruct (H403 eq_refl) as [Hdel _]. split; [exact Hdel | exact Hput].
Defined.

Lemma answer_edit_recorded_witness :
  status (response (answers_put 50 Example.root 1 "Use a table, as in the old days"
                      (Some "") Sample.posted)) = 200%nat
  ∧ response (answers_put 50 Sample.bob 1 "Use a flex container and justify-content"
                None Sample.posted)
    = {| status := 400; body := message "No changes to update" |}.
Proof.
  destruct (answer_edit_recorded 50 Example.root 1 "Use a table, as in the old days"
              (Some "") Sample.posted Sample.a1) as [_ Hch].
  { vm_compute. reflexivity. }
  { reflexivity. }
  { right. reflexivity. }
  { reflexivity. }
  destruct (answer_edit_recorded 50 Sample.bob 1
              "Use a flex container and justify-content" None Sample.posted
              Sample.a1) as [Hsame _].
  { vm_compute. reflexivity. }
  { reflexivity. }
  { left. reflexivity. }
  { reflexivity. }
  destruct Hch as [H200 _]; [discriminate|].
  destruct (Hsame eq_refl) as [H400 _].
  split; [exact H200 | exact H400].
Defined.

Lemma answer_soft_delete_witness :
  (∃ a', answers Sample.deleted !! 1%nat = Some a'
         ∧ Answer.isDeleted a' = true
         ∧ Answer.deletedBy a' = Some 2%nat
         ∧ Answer.deleteReason a' = Some "No reason provided")
  ∧ status (response (answers_delete 60 Example.root 1 None Sample.deleted))
    = 404%nat.
Proof.
  destruct (answer_soft_delete 30 Sample.bob 1 None Sample.posted Sample.a1)
    as (_ & (a' & Hst & Hd & Hby & _ & Hwhy & _) & Hagain).
  - vm_compute. reflexivity.
  - reflexivity.
  - left. reflexivity.
  - destruct (Hagain 60 Example.root None) as [H404 _]. split.
    + exists a'. unfold Sample.deleted. rewrite Hst. simpl.
      rewrite lookup_insert_eq. split_and!; [reflexivity | exact Hd | exact Hby | exact Hwhy].
    + unfold Sample.deleted. by rewrite H404.
Defined.

Lemma deleted_answer_untouched_witness :
  answers_accept Sample.app 60 Sample.alice 1 Sample.deleted
  = reply Sample.deleted 404 (message "Answer not found")
  ∧ store (answers_vote 60 Sample.carol 1 "upvote" Sample.deleted) = Sample.deleted.
Proof.
  destruct (deleted_answer_untouched Sample.app 60 Sample.alice 1 "" None None
              "upvote" Sample.deleted
              (default Sample.a1 (answers Sample.deleted !! 1%nat)))
    as (_ & _ & _ & Hacc & _).
  { vm_compute. reflexivity. }
  { vm_compute. reflexivity. }
  destruct (deleted_answer_untouched Sample.app 60 Sample.carol 1 "" None None
              "upvote" Sample.deleted
              (default Sample.a1 (answers Sample.deleted !! 1%nat)))
    as (_ & (Hvote & _) & _).
  { vm_compute. reflexivity. }
  { vm_compute. reflexivity. }
  split; [exact Hacc | exact Hvote].
Defined.

Lemma delete_keeps_acceptance_witness :
  let o := answers_delete 50 Sample.bob 1 None Sample.accepted in
  questions (store o) = questions Sample.accepted
  ∧ answers_unaccept Sample.alice 1 (store o)
    = reply (store o) 404 (message "Answer not found")
  ∧ status (response (answers_accept Sample.app 60 Sample.alice 2 (store o)))
    = 200%nat.
Proof.
  destruct (delete_keeps_acceptance Sample.app 50 60 Sample.bob 1 None
              Sample.accepted (Answer.acceptAnswer Sample.a1 1 10)
              (Question.set_accepted Sample.q1 true (Some 1%nat)))
    as (Hq & _ & Hun & Hnext).
  - vm_compute. reflexivity.
  - reflexivity.
  - reflexivity.
  - left. reflexivity.
  - vm_compute. reflexivity.
  - reflexivity.
  - reflexivity.
  - destruct (Hnext Sample.alice 2%nat Sample.a2) as (H200 & _).
    + vm_compute. reflexivity.
    + lia.
    + reflexivity.
    + reflexivity.
    + reflexivity.
    + split_and!; [exact Hq | exact (Hun Sample.alice) | exact H200].
Defined.

Lemma accept_unaccept_round_trip_witness :
  let o2 := answers_unaccept Sample.alice 1 Sample.accepted in
  status (response o2) = 200%nat
  ∧ answers (store o2) = answers Sample.posted
  ∧ questions (store o2) = questions Sample.posted.
Proof.
  destruct (accept_unaccept_round_trip Sample.app 10 Sample.alice 1 Sample.posted
              Sample.a1 Sample.q1) as (_ & H200 & Ha & Hq & _).
  - vm_compute. reflexivity.
  - reflexivity.
  - reflexivity.
  - reflexivity.
  - reflexivity.
  - vm_compute. reflexivity.
  - reflexivity.
  - reflexivity.
  - reflexivity.
  - reflexivity.
  - split_and!; [exact H200 | exact Ha | exact Hq].
Defined.

Lemma accept_author_only_witness :
  answers_accept Sample.app 50 Example.root 1 Sample.posted
  = reply Sample.posted 403 (message "Only the question author can accept answers").
Proof.
  destruct (accept_author_only Sample.app 50 Example.root 1 Sample.posted
              Sample.a1 Sample.q1) as [H _].
  - vm_compute. reflexivity.
  - reflexivity.
  - vm_compute. reflexivity.
  - reflexivity.
  - simpl. lia.
  - exact H.
Defined.

Lemma post_notifies_asker_witness :
  ∃ n, notifications
         (store (answers_post Sample.app Sample.bob
                   "Use a flex container and justify-content" (Some 1%nat)
                   Sample.asked))
       = [n]
       ∧ Notification.recipient n = 1%nat
       ∧ Notification.type n = Notification.answer_received.
Proof.
  destruct (post_notifies_asker Sample.app Sample.bob
              "Use a flex container and justify-content" 1 Sample.asked Sample.q1)
    as [Hn _].
  - reflexivity.
  - vm_compute. reflexivity.
  - reflexivity.
  - intros i a Hi. vm_compute in Hi. discriminate Hi.
  - destruct Hn as (n & Hn & Hrec & _ & Hty & _).
    + simpl. lia.
    + exists n. split_and!; [exact Hn | exact Hrec | exact Hty].
Defined.

Lemma push_follows_record_witness :
  ∃ n, notifications Sample.accepted = notifications Sample.posted ++ [n]
       ∧ connectedUsers Sample.app !! Notification.recipient n = Some "socket-bob".
Proof.
  destruct (push_follows_record Sample.app 10 Sample.alice "" None 1 Sample.posted)
    as [_ Hacc].
  destruct (Hacc {| to := "socket-bob"; event := "newNotification";
                    emit_type := Notification.answer_accepted;
                    emit_title := "Answer accepted";
                    emit_message :=
                      "Your answer to " +:+ dquote +:+ "How to center a div"
                        +:+ dquote +:+ " was accepted" |})
    as (_ & _ & _ & n & Hn & Hsock & _).
  - vm_compute. apply list_elem_of_here.
  - exists n. split; [exact Hn | exact Hsock].
Defined.



Lemma deleted_question_closed_witness :
  answers_accept Sample.app 50 Sample.alice 1 Example.closed
  = reply Example.closed 404 (message "Question not found")
  ∧ response (answers_post Sample.app Example.root
                "An answer that comes too late, alas" (Some 1%nat) Example.closed)
    = {| status := 404; body := message "Question not found" |}.
Proof.
  destruct (deleted_question_closed Sample.same Sample.same Sample.stringify
              Sample.app 50 Sample.alice 1 None None None None None "upvote" ""
              Example.closed
              (default Sample.q1 (questions Example.closed !! 1%nat)))
    as (_ & _ & _ & _ & _ & _ & _ & Hacc).
  { vm_compute. reflexivity. }
  { vm_compute. reflexivity. }
  destruct (deleted_question_closed Sample.same Sample.same Sample.stringify
              Sample.app 50 Example.root 1 None None None None None "upvote"
              "An answer that comes too late, alas" Example.closed
              (default Sample.q1 (questions Example.closed !! 1%nat)))
    as (_ & _ & _ & _ & _ & _ & Hpost & _).
  { vm_compute. reflexivity. }
  { vm_compute. reflexivity. }
  destruct (Hacc 1%nat Sample.a1) as [H404 _].
  { vm_compute. reflexivity. }
  { reflexivity. }
  { reflexivity. }
  split; [exact H404 | exact (Hpost eq_refl)].
Defined.

Lemma delete_leaves_list_witness :
  responseTotal (response (questions_get Sample.same Sample.noSearch Sample.page2
                             Sample.posted)) = Some 1
  ∧ responseTotal (response (questions_get Sample.same Sample.noSearch Sample.page2
                               Example.closed)) = Some 0.
Proof.
  destruct (delete_leaves_list Sample.same Sample.noSearch 40 Sample.alice 1 None
              Sample.page2 Sample.posted Sample.q1) as (_ & n & Hn & Hafter).
  - vm_compute. reflexivity.
  - reflexivity.
  - left. reflexivity.
  - reflexivity.
  - assert (E : n = 1).
    { assert (H1 : responseTotal
                     (response (questions_get Sample.same Sample.noSearch
                                  Sample.page2 Sample.posted)) = Some 1)
        by (vm_compute; reflexivity).
      rewrite Hn in H1. by injection H1. }
    subst n. split; [exact Hn | exact Hafter].
Defined.

Lemma accept_leaves_unanswered_witness :
  responseTotal (response (questions_get Sample.same Sample.noSearch
                             Example.unanswered Sample.posted)) = Some 1
  ∧ responseTotal (response (questions_get Sample.same Sample.noSearch
                               Example.unanswered Sample.accepted)) = Some 0.
Proof.
  destruct (accept_leaves_unanswered Sample.same Sample.noSearch Sample.app 10
              Sample.alice 1 Example.unanswered Sample.posted Sample.a1 Sample.q1)
    as (n & Hn & Hafter).
  - vm_compute. reflexivity.
  - reflexivity.
  - vm_compute. reflexivity.
  - reflexivity.
  - reflexivity.
  - reflexivity.
  - reflexivity.
  - assert (E : n = 1).
    { assert (H1 : responseTotal
                     (response (questions_get Sample.same Sample.noSearch
                                  Example.unanswered Sample.posted)) = Some 1)
        by (vm_compute; reflexivity).
      rewrite Hn in H1. by injection H1. }
    subst n. split; [exact Hn | exact Hafter].
Defined.

Lemma ban_unban_round_trip_witness :
  store (users_unban 5 (store (users_ban 5 (Some "spam") Sample.registered)))
  = Sample.registered.
Proof.
  destruct (ban_unban_round_trip 5 "spam" Sample.registered Sample.member)
    as (_ & _ & _ & Hback).
  - vm_compute. reflexivity.
  - simpl. discriminate.
  - discriminate.
  - apply Hback; reflexivity.
Defined.

Lemma role_decides_ban_witness :
  status (response (users_ban 5 (Some "spam")
                      (store (users_role 5 (Some User.admin) Sample.registered))))
  = 403%nat
  ∧ status (response (users_ban 6 (Some "spam")
                        (store (users_role 6 (Some User.user) Sample.registered))))
    = 200%nat.
Proof.
  destruct (role_decides_ban 5 "spam" Sample.registered Sample.member)
    as ((H403 & _) & _).
  { vm_compute. reflexivity. }
  { discriminate. }
  destruct (role_decides_ban 6 "spam" Sample.registered
              (User.set_role Sample.member User.admin)) as (_ & (H200 & _) & _).
  { vm_compute. reflexivity. }
  { discriminate. }
  split; [by rewrite H403 | exact H200].
Defined.

Lemma profile_hidden_when_banned_witness :
  users_get_id 5 (store (users_ban 5 (Some "spam") Sample.registered))
  = profile_not_found
  ∧ users_get_id 7 Sample.registered = profile_not_found.
Proof.
  destruct (profile_hidden_when_banned 5 "spam" Sample.registered Sample.member)
    as (Hhidden & _ & Hmissing).
  - vm_compute. reflexivity.
  - simpl. discriminate.
  - discriminate.
  - split; [exact Hhidden | apply Hmissing; vm_compute; reflexivity].
Defined.

Lemma delete_leaves_profile_witness :
  ∃ p s s',
    users_get_id 2 Example.members = profile_found p s
    ∧ users_get_id 2 (store (answers_delete 50 Sample.bob 1 None Example.members))
      = profile_found p s'
    ∧ stats_answers s = 1 ∧ stats_answers s' = 0
    ∧ stats_acceptedAnswers s = 1 ∧ stats_acceptedAnswers s' = 0.
Proof.
  destruct (delete_leaves_profile 50 Sample.bob 1 None Example.members
              (Answer.acceptAnswer Sample.a1 1 10) Sample.member)
    as (p & s & s' & Hp & Hp' & Ha & Hacc & _).
  - vm_compute. reflexivity.
  - reflexivity.
  - left. reflexivity.
  - vm_compute. reflexivity.
  - reflexivity.
  - exists p, s, s'. simpl in Hp, Hp', Ha, Hacc.
    assert (Hs : stats_answers s = 1 ∧ stats_acceptedAnswers s = 1).
    { assert (H1 : ∃ p0, users_get_id 2 Example.members
                         = profile_found p0 {| stats_questions := 0;
                                               stats_answers := 1;
                                               stats_acceptedAnswers := 1 |})
        by (eexists; vm_compute; reflexivity).
      destruct H1 as (p0 & H1). rewrite Hp in H1. by injection H1 as _ ->. }
    destruct Hs as [Hs1 Hs2]. split_and!; try done; lia.
Defined.

Lemma notification_owner_only_witness :
  notifications_read 50 Sample.bob 1 Example.inbox
  = replyN Example.inbox 403 "Not authorized to access this notification"
  ∧ notifications_delete Sample.bob 4 Example.inbox
    = replyN Example.inbox 404 "Notification not found".
Proof.
  destruct (notification_owner_only 50 Sample.bob 1 Example.inbox) as (_ & H403).
  destruct (H403 Example.forAlice) as (Hread & _).
  { vm_compute. reflexivity. }
  { simpl. lia. }
  destruct (notification_owner_only 50 Sample.bob 4 Example.inbox) as (H404 & _).
  destruct H404 as (_ & _ & Hdel).
  { vm_compute. reflexivity. }
  split; [exact Hread | exact Hdel].
Defined.

Lemma read_unread_round_trip_witness :
  notifications_unread_count Sample.alice Example.inbox = 1
  ∧ notifications_unread_count Sample.alice
      (collection (notifications_read 50 Sample.alice 1 Example.inbox)) = 0
  ∧ collection (notifications_unread Sample.alice 1
                  (collection (notifications_read 50 Sample.alice 1 Example.inbox)))
    = Example.inbox.
Proof.
  destruct (read_unread_round_trip 50 Sample.alice 1 Example.inbox Example.forAlice)
    as (_ & _ & _ & _ & _ & Hcount & _ & _ & Hback).
  - vm_compute. reflexivity.
  - reflexivity.
  - assert (H1 : notifications_unread_count Sample.alice Example.inbox = 1)
      by (vm_compute; reflexivity).
    split_and!.
    + exact H1.
    + rewrite Hcount, H1. reflexivity.
    + apply Hback; reflexivity.
Defined.

Lemma mark_all_read_clears_witness :
  notifications_unread_count Sample.alice
    (collection (notifications_mark_all_read 50 Sample.alice Example.inbox)) = 0
  ∧ collection (notifications_mark_all_read 50 Sample.alice Example.inbox) !! 2%nat
    = Some Example.forBob
  ∧ collection (notifications_mark_all_read 50 Sample.alice Example.inbox) !! 3%nat
    = Some (Notifications.markAsRead Example.forAlice 5).
Proof.
  destruct (mark_all_read_clears 50 Sample.alice Example.inbox)
    as (_ & Hzero & _ & Heach & _).
  destruct (Heach 2%nat Example.forBob) as [_ Hbob].
  { vm_compute. reflexivity. }
  destruct (Heach 3%nat (Notifications.markAsRead Example.forAlice 5)) as [_ Hread].
  { vm_compute. reflexivity. }
  split_and!.
  - exact Hzero.
  - apply Hbob. left. simpl. lia.
  - apply Hread. right. reflexivity.
Defined.


Lemma notifications_get_counts_witness :
  ∃ pg, notifications_get Example.unreadOnly Sample.alice Example.inbox
        = (200%nat, list_page pg 1)
        ∧ totalNotifications pg = 1.
Proof.
  destruct (notifications_get_counts Example.unreadOnly Sample.alice Example.inbox)
    as (pg & unread & Hr & Hu & _ & _ & _ & Hfilter & _).
  - reflexivity.
  - assert (H1 : notifications_unread_count Sample.alice Example.inbox = 1)
      by (vm_compute; reflexivity).
    exists pg. rewrite Hr, (Hfilter eq_refl), Hu, H1. by split.
Defined.

Lemma shadowed_routes_witness :
  ¬ live notifications_router
      {| method := DELETE; pattern := [word "clear-all"];
         label := "DELETE /api/notifications/clear-all" |}
  ∧ live notifications_router
      {| method := PUT; pattern := [word "mark-all-read"];
         label := "PUT /api/notifications/mark-all-read" |}.
Proof.
  destruct shadowed_routes as (Hn & _).
  split.
  - intros Hl. apply Hn in Hl; [by apply Hl|].
    apply list_elem_of_In. simpl. tauto.
  - apply Hn; [|discriminate].
    apply list_elem_of_In. simpl. tauto.
Defined.

Lemma reachable_acceptance_witness :
  ∃ q, questions Sample.accepted !! 1%nat = Some q
       ∧ Question.acceptedAnswer q = Some 1%nat
       ∧ Question.isAnswered q = true.
Proof.
  destruct (reachable_acceptance Sample.same Sample.same Sample.stringify
              Sample.noSearch Sample.accepted) as (_ & Hptr & _).
  - apply sample_reachable.
  - destruct (Hptr 1%nat (Answer.acceptAnswer Sample.a1 1 10)) as (q & Hq & Hp & Ha).
    + vm_compute. reflexivity.
    + reflexivity.
    + exists q. split_and!; [exact Hq | exact Hp | exact Ha].
Defined.
